(** * Collision detection and rollback in the 2D arena simulator

    A shallow embedding of [Game.add_game_object] and [Game.update]
    (src/game.py) together with the parts of the imported modules
    [physics], [collision_engine_2d] and [game_objects] that the update
    loop calls.

    Numbers.  Python floats are idealised as real numbers ([R]); the
    comparisons [<], [<=], [>=] of the source become decisions on [R]
    returning [bool], so that the control flow of the source is kept.

    Objects.  Python game objects are mutable and compared by identity
    ([game_obj is not another_obj]); they live in a store indexed by
    references, and [Game.game_objects] is a list of references, so the
    same object may be registered more than once. *)

From Stdlib Require Import String ZArith Reals Lra List Bool Arith Lia.
Import ListNotations.

Open Scope R_scope.

(** ** Comparisons of floats, as booleans *)

Definition Rltb (a b : R) : bool := if Rlt_dec a b then true else false.
Definition Rleb (a b : R) : bool := if Rle_dec a b then true else false.
(** [a >= b] *)
Definition Rgeb (a b : R) : bool := Rleb b a.

(** [math.isclose(a, b, rel_tol=rel_tol)] of the Python standard library,
    with its default [abs_tol = 0.0]:
    [abs(a-b) <= max(rel_tol * max(abs(a), abs(b)), abs_tol)]. *)
Definition isclose (a b rel_tol : R) : bool :=
  Rleb (Rabs (a - b)) (Rmax (rel_tol * Rmax (Rabs a) (Rabs b)) 0).

(** The literal [1e-4]. *)
Definition rel_tol_1e_4 : R := 1 / 10000.

(** ** physics *)

Module Vector2D.

Record t : Type := mk { x : R; y : R }.

(** Modelled from the spec: [Vector2D.__add__] / [__iadd__] of the absent
    module physics, "vector addition". *)
Definition add (u v : t) : t := mk (x u + x v) (y u + y v).

(** Modelled from the spec: [Vector2D.rotate] of the absent module
    physics, "returns a new vector rotated about the coordinate origin"
    by an angle in radians. *)
Definition rotate (v : t) (angle : R) : t :=
  mk (x v * cos angle - y v * sin angle) (x v * sin angle + y v * cos angle).

(** Modelled from the spec: [Vector2D.find_distance] of the absent module
    physics, "Euclidean distance to another vector". *)
Definition find_distance (u v : t) : R :=
  sqrt ((x u - x v) * (x u - x v) + (y u - y v) * (y u - y v)).

End Vector2D.

Module Orient2D.
Record t : Type := mk { z : R }.
End Orient2D.

Module Pose2D.
Record t : Type := mk { position : Vector2D.t; orientation : Orient2D.t }.
End Pose2D.

(** [copy.deepcopy] on a pose: a fresh pose object built from fresh
    components holding the same numbers. *)
Definition deepcopy (p : Pose2D.t) : Pose2D.t :=
  Pose2D.mk
    (Vector2D.mk (Vector2D.x (Pose2D.position p)) (Vector2D.y (Pose2D.position p)))
    (Orient2D.mk (Orient2D.z (Pose2D.orientation p))).

(** ** collision_engine_2d *)

Module Point2D.
Record t : Type := mk { x : R; y : R }.
End Point2D.

Module Line2D.

(** Modelled from the spec: [Line2D] of the absent module
    collision_engine_2d, an "infinite line, constructible from two
    points": the line through [p] and [q]. *)
Record t : Type := mk { p : Point2D.t; q : Point2D.t }.

Definition dx (l : t) : R := Point2D.x (q l) - Point2D.x (p l).
Definition dy (l : t) : R := Point2D.y (q l) - Point2D.y (p l).

(** The cross product of the directions of two lines; it vanishes
    exactly when the lines are parallel (or coincident), and when one
    of them is given by two equal points. *)
Definition cross (l m : t) : R := dx l * dy m - dy l * dx m.

(** Modelled from the spec: [find_intersection] of the absent module
    collision_engine_2d: "the intersection point of the two underlying
    infinite lines, or a no intersection result when the lines are
    parallel (including coincident)".  The source compares the result
    with [False]; [None] stands for that [False]. *)
Definition find_intersection (l m : t) : option Point2D.t :=
  if Req_dec_T (cross l m) 0 then None
  else
    let s := ((Point2D.x (p m) - Point2D.x (p l)) * dy m
              - (Point2D.y (p m) - Point2D.y (p l)) * dx m) / cross l m in
    Some (Point2D.mk (Point2D.x (p l) + s * dx l) (Point2D.y (p l) + s * dy l)).

End Line2D.

Module LineSegment2D.

(** [LineSegment2D(point1, point2)]; the source reads [edge.point1] and
    [edge.point2]. *)
Record t : Type := mk { point1 : Point2D.t; point2 : Point2D.t }.

(** A segment is a line bounded by its two endpoints; this is its
    underlying infinite line. *)
Definition line (e : t) : Line2D.t := Line2D.mk (point1 e) (point2 e).

(** Modelled from the spec: [find_perpendicular] of the absent module
    collision_engine_2d: "the line through point perpendicular to this
    segment's underlying line". *)
Definition find_perpendicular (e : t) (through_point : Point2D.t) : Line2D.t :=
  Line2D.mk through_point
    (Point2D.mk (Point2D.x through_point - Line2D.dy (line e))
                (Point2D.y through_point + Line2D.dx (line e))).

(** Modelled from the spec: [LineSegment2D.find_distance] of the absent
    module collision_engine_2d: "perpendicular distance from point to
    the underlying infinite line (not clamped to the segment)". *)
Definition find_distance (e : t) (c : Point2D.t) : R :=
  Rabs (Line2D.dx (line e) * (Point2D.y c - Point2D.y (point1 e))
        - Line2D.dy (line e) * (Point2D.x c - Point2D.x (point1 e)))
  / sqrt (Line2D.dx (line e) * Line2D.dx (line e)
          + Line2D.dy (line e) * Line2D.dy (line e)).

End LineSegment2D.

(** ** game_objects *)

(** [type(obj)] of a game object.  [Other] is the class [GameObject]
    itself or a subclass that is none of the three. *)
Inductive Kind : Type := Robot | Wall | Zone | Other.

Definition Kind_eqb (k1 k2 : Kind) : bool :=
  match k1, k2 with
  | Robot, Robot | Wall, Wall | Zone, Zone | Other, Other => true
  | _, _ => false
  end.

(** Modelled from the spec: the object model of the absent module
    game_objects, "each exposing pose, bounding radius (Robot), and
    world-transformable local vertex list (Wall)": [vertex] is
    [shape_set[0].vertex]. *)
Record GameObject : Type := mkGameObject {
  kind : Kind;
  pose : Pose2D.t;
  radius : R;
  vertex : list Vector2D.t
}.

(** Modelled from the spec: [GameObject.moveTo] of the absent module
    game_objects, "restore the snapshot as the object's pose". *)
Definition moveTo (o : GameObject) (new_pose : Pose2D.t) : GameObject :=
  mkGameObject (kind o) new_pose (radius o) (vertex o).

(** ** The store of objects *)

Definition ref : Type := nat.

Definition Store : Type := ref -> GameObject.

(** Mutation in place of the object behind reference [r]. *)
Definition set (st : Store) (r : ref) (o : GameObject) : Store :=
  fun r' => if Nat.eqb r' r then o else st r'.

(** ** Game *)

Record Game : Type := mkGame {
  objects : Store;
  game_objects : list ref
}.

(** Python values that may be passed to [add_game_object]. *)
Inductive PyValue : Type :=
| PyGameObject (r : ref)
| PyNone
| PyBool (b : bool)
| PyInt (n : Z)
| PyFloat (f : R)
| PyStr (s : string)
| PyInstance (class_name : string).

Inductive PyException : Type :=
| TypeError (message : string).

Inductive Outcome : Type :=
| Returned
| Raised (e : PyException).

(** [type(obj).__name__] *)
Definition type_name (st : Store) (obj : PyValue) : string :=
  match obj with
  | PyGameObject r =>
      match kind (st r) with
      | Robot => "Robot" | Wall => "Wall" | Zone => "Zone" | Other => "GameObject"
      end
  | PyNone => "NoneType"
  | PyBool _ => "bool"
  | PyInt _ => "int"
  | PyFloat _ => "float"
  | PyStr _ => "str"
  | PyInstance class_name => class_name
  end%string.

(** [isinstance(obj, GameObject)]: the store holds game objects only, so
    the test succeeds exactly on references into it; the reference is
    returned for the caller to use. *)
Definition as_GameObject (obj : PyValue) : option ref :=
  match obj with
  | PyGameObject r => Some r
  | _ => None
  end.


(** [Game.add_game_object] *)
Definition add_game_object (self : Game) (obj : PyValue) : Outcome * Game :=
  match as_GameObject obj with
  | None =>
      (Raised (TypeError ("Cannot add '" ++ type_name (objects self) obj
                          ++ "' type as a game object.")%string),
       self)
  | Some r =>
      (Returned, mkGame (objects self) (game_objects self ++ [r]))
  end.

(** *** Collision check of [Game.update]

    The check of one robot [game_obj] against the registered objects.
    Besides the flag [collision] the functions return the list of the
    predicates they evaluated, in order of evaluation. *)

Inductive Probe : Type :=
| ProbeRobot (another : ref)               (* distance to another robot *)
| ProbeVertex (another : ref) (i : nat)    (* distance to corner [i] of a wall *)
| ProbeEdge (another : ref) (i : nat).     (* test of edge [i] of a wall *)

Definition center (game_obj : GameObject) : Point2D.t :=
  Point2D.mk (Vector2D.x (Pose2D.position (pose game_obj)))
             (Vector2D.y (Pose2D.position (pose game_obj))).

(** The condition of line 127 is
    [type(another_obj) is Robot and game_obj is not another_obj and
     game_obj.pose.position.find_distance(another_obj.pose.position)
       < game_obj.radius + another_obj.radius];
    [and] evaluates its right operand only when the left one holds, so
    the distance is computed only when the first two operands hold. *)

(** [type(another_obj) is Robot and game_obj is not another_obj] *)
Definition is_robot_pair (st : Store) (g a : ref) : bool :=
  Kind_eqb (kind (st a)) Robot && negb (Nat.eqb g a).

(** [game_obj.pose.position.find_distance(another_obj.pose.position)
     < game_obj.radius + another_obj.radius] *)
Definition robots_overlap (game_obj another_obj : GameObject) : bool :=
  Rltb (Vector2D.find_distance (Pose2D.position (pose game_obj))
                               (Pose2D.position (pose another_obj)))
       (radius game_obj + radius another_obj).

(** [new_v = v.rotate(another_obj.pose.orientation.z);
     new_v += another_obj.pose.position] *)
Definition world_vertex (another_obj : GameObject) (v : Vector2D.t) : Vector2D.t :=
  Vector2D.add
    (Vector2D.rotate v (Orient2D.z (Pose2D.orientation (pose another_obj))))
    (Pose2D.position (pose another_obj)).

(** [new_v.find_distance(game_obj.pose.position) < game_obj.radius] *)
Definition corner_hit (game_obj : GameObject) (new_v : Vector2D.t) : bool :=
  Rltb (Vector2D.find_distance new_v (Pose2D.position (pose game_obj)))
       (radius game_obj).

(** [for v in vertex: ...], from corner number [i] on. *)
Fixpoint vertex_loop (game_obj another_obj : GameObject) (a : ref) (i : nat)
    (vertex : list Vector2D.t) (collision : bool) (coords : list Vector2D.t)
    : bool * list Vector2D.t * list Probe :=
  match vertex with
  | [] => (collision, coords, [])
  | v :: rest =>
      if collision then (collision, coords, [])            (* break *)
      else
        let new_v := world_vertex another_obj v in
        if corner_hit game_obj new_v
        then (true, coords, [ProbeVertex a i])             (* break *)
        else
          let '(c, cs, l) :=
            vertex_loop game_obj another_obj a (S i) rest collision
                        (coords ++ [new_v]) in
          (c, cs, ProbeVertex a i :: l)
  end.

Definition origin : Vector2D.t := Vector2D.mk 0 0.

(** [LineSegment2D(Point2D(coords[i].x, coords[i].y),
                   Point2D(coords[(i+1)%len(coords)].x,
                           coords[(i+1)%len(coords)].y))];
    both indices are within [coords]. *)
Definition edge_at (coords : list Vector2D.t) (i : nat) : LineSegment2D.t :=
  let v1 := nth i coords origin in
  let v2 := nth ((i + 1) mod length coords) coords origin in
  LineSegment2D.mk (Point2D.mk (Vector2D.x v1) (Vector2D.y v1))
                   (Point2D.mk (Vector2D.x v2) (Vector2D.y v2)).

(** [for i in range(len(coords)): ...] over the indices [range]. *)
Fixpoint edges_loop (coords : list Vector2D.t) (range : list nat)
    (collision : bool) (edges : list LineSegment2D.t) : list LineSegment2D.t :=
  match range with
  | [] => edges
  | i :: rest =>
      if collision then edges                               (* break *)
      else edges_loop coords rest collision (edges ++ [edge_at coords i])
  end.

(** The test of the bounding box of [edge] on the point [intersetion],
    lines 180-192. *)
Definition in_bounding_box (edge : LineSegment2D.t) (intersetion : Point2D.t) : bool :=
  let xmax := Rmax (Point2D.x (LineSegment2D.point1 edge)) (Point2D.x (LineSegment2D.point2 edge)) in
  let xmin := Rmin (Point2D.x (LineSegment2D.point1 edge)) (Point2D.x (LineSegment2D.point2 edge)) in
  let ymax := Rmax (Point2D.y (LineSegment2D.point1 edge)) (Point2D.y (LineSegment2D.point2 edge)) in
  let ymin := Rmin (Point2D.y (LineSegment2D.point1 edge)) (Point2D.y (LineSegment2D.point2 edge)) in
  (Rleb (Point2D.x intersetion) xmax || isclose (Point2D.x intersetion) xmax rel_tol_1e_4)
  && (Rgeb (Point2D.x intersetion) xmin || isclose (Point2D.x intersetion) xmin rel_tol_1e_4)
  && (Rleb (Point2D.y intersetion) ymax || isclose (Point2D.y intersetion) ymax rel_tol_1e_4)
  && (Rgeb (Point2D.y intersetion) ymin || isclose (Point2D.y intersetion) ymin rel_tol_1e_4).

(** The body of [for edge in edges], after the guard: whether [edge] sets
    [collision]. *)
Definition edge_hit (game_obj : GameObject) (edge : LineSegment2D.t) : bool :=
  let perpendicular_line := LineSegment2D.find_perpendicular edge (center game_obj) in
  let intersetion := Line2D.find_intersection perpendicular_line (LineSegment2D.line edge) in
  match intersetion with
  | None => false                                           (* intersetion == False *)
  | Some point =>
      if in_bounding_box edge point
      then Rltb (LineSegment2D.find_distance edge (center game_obj)) (radius game_obj)
      else false
  end.

(** [for edge in edges: ...], from edge number [i] on. *)
Fixpoint edge_loop (game_obj : GameObject) (a : ref) (i : nat)
    (edges : list LineSegment2D.t) (collision : bool) : bool * list Probe :=
  match edges with
  | [] => (collision, [])
  | edge :: rest =>
      if collision then (collision, [])                     (* break *)
      else if edge_hit game_obj edge
        then (true, [ProbeEdge a i])                        (* break *)
        else
          let '(c, l) := edge_loop game_obj a (S i) rest collision in
          (c, ProbeEdge a i :: l)
  end.

(** The branch [if type(another_obj) is Wall:], lines 139-203. *)
Definition wall_check (game_obj another_obj : GameObject) (a : ref)
    (collision : bool) : bool * list Probe :=
  (* vertex = deepcopy(another_obj.shape_set[0].vertex); coords = [] *)
  let '(collision1, coords, l1) :=
    vertex_loop game_obj another_obj a 0 (vertex another_obj) collision [] in
  (* edges = [] *)
  let edges := edges_loop coords (seq 0 (length coords)) collision1 [] in
  let '(collision2, l2) := edge_loop game_obj a 0 edges collision1 in
  (collision2, l1 ++ l2).

(** [for another_obj in self.game_objects: ...], lines 126-203, for the
    robot behind [g]; [collision] is the flag on entry. *)
Fixpoint scan (st : Store) (g : ref) (others : list ref) (collision : bool)
    : bool * list Probe :=
  match others with
  | [] => (collision, [])
  | a :: rest =>
      if is_robot_pair st g a then
        if robots_overlap (st g) (st a)
        then (true, [ProbeRobot a])                         (* break *)
        else
          (* [another_obj] is a Robot, hence not a Wall *)
          let '(c, l) := scan st g rest collision in
          (c, ProbeRobot a :: l)
      else if Kind_eqb (kind (st a)) Wall then
        let '(c1, l1) := wall_check (st g) (st a) a collision in
        let '(c2, l2) := scan st g rest c1 in
        (c2, l1 ++ l2)
      else scan st g rest collision
  end.

(** The value of [collision] when line 205 is reached. *)
Definition collision_check (st : Store) (game_objects : list ref) (g : ref) : bool :=
  fst (scan st g game_objects false).

(** The predicates evaluated on the way. *)
Definition probes (st : Store) (game_objects : list ref) (g : ref) : list Probe :=
  snd (scan st g game_objects false).

Definition no_wall (st : Store) (a : ref) : Prop := kind (st a) <> Wall.

Definition is_robot_probe (p : Probe) : bool :=
  match p with
  | ProbeRobot _ => true
  | _ => false
  end.

(** The object a probe is made against. *)
Definition probe_target (p : Probe) : ref :=
  match p with
  | ProbeRobot a | ProbeVertex a _ | ProbeEdge a _ => a
  end.



(** The bounding-box test as the specification words it: "each
    coordinate must satisfy min <= value <= max", where "a value
    marginally outside the strict bound but within relative tolerance
    [1e-4] of the bound still counts as inside". *)
Definition spec_within_tolerance (value bound : R) : Prop :=
  Rabs (value - bound) <= 1 / 10000 * Rmax (Rabs value) (Rabs bound).

Definition spec_within_bounding_box (edge : LineSegment2D.t) (point : Point2D.t) : Prop :=
  let x1 := Point2D.x (LineSegment2D.point1 edge) in
  let x2 := Point2D.x (LineSegment2D.point2 edge) in
  let y1 := Point2D.y (LineSegment2D.point1 edge) in
  let y2 := Point2D.y (LineSegment2D.point2 edge) in
  (Point2D.x point <= Rmax x1 x2 \/ spec_within_tolerance (Point2D.x point) (Rmax x1 x2))
  /\ (Rmin x1 x2 <= Point2D.x point \/ spec_within_tolerance (Point2D.x point) (Rmin x1 x2))
  /\ (Point2D.y point <= Rmax y1 y2 \/ spec_within_tolerance (Point2D.y point) (Rmax y1 y2))
  /\ (Rmin y1 y2 <= Point2D.y point \/ spec_within_tolerance (Point2D.y point) (Rmin y1 y2)).


Definition to_point (v : Vector2D.t) : Point2D.t :=
  Point2D.mk (Vector2D.x v) (Vector2D.y v).

(** *** Game.update *)

Section Update.

(** [game_obj.update(t_interval)] of the absent module game_objects:
    the motion of one object during a time interval, "mutates the
    object's own pose in place; the core does not know or care how". *)
Variable obj_update : GameObject -> R -> GameObject.

(** The body of [for game_obj in self.game_objects:], lines 118-206. *)
Definition update_object (game_objects : list ref) (t_interval : R)
    (st : Store) (g : ref) : Store :=
  let old_pose := deepcopy (pose (st g)) in
  let st1 := set st g (obj_update (st g) t_interval) in
  if Kind_eqb (kind (st1 g)) Robot then
    if collision_check st1 game_objects g
    then set st1 g (moveTo (st1 g) old_pose)
    else st1
  else st1.

(** Whether line 206, the rollback, is reached in the turn of [g]. *)
Definition rolls_back (game_objects : list ref) (t_interval : R)
    (st : Store) (g : ref) : bool :=
  let st1 := set st g (obj_update (st g) t_interval) in
  Kind_eqb (kind (st1 g)) Robot && collision_check st1 game_objects g.

(** [Game.update] *)
Definition update (self : Game) (t_interval : R) : Game :=
  mkGame
    (fold_left (update_object (game_objects self) t_interval)
               (game_objects self) (objects self))
    (game_objects self).


End Update.

(** What a probe may be made against: another robot, or a wall. *)
Definition probe_ok (st : Store) (g : ref) (p : Probe) : Prop :=
  match p with
  | ProbeRobot a => kind (st a) = Robot /\ a <> g
  | ProbeVertex a _ | ProbeEdge a _ => kind (st a) = Wall
  end.

Definition is_zone (st : Store) (a : ref) : bool := Kind_eqb (kind (st a)) Zone.

(** ** Arenas used as examples *)

Definition robot_at (x y r : R) : GameObject :=
  mkGameObject Robot (Pose2D.mk (Vector2D.mk x y) (Orient2D.mk 0)) r [].

(** A zone and a wall with the given half sides, centred at [(x, y)],
    not turned. *)
Definition rectangle (hx hy : R) : list Vector2D.t :=
  [Vector2D.mk (- hx) (- hy); Vector2D.mk hx (- hy);
   Vector2D.mk hx hy; Vector2D.mk (- hx) hy].

Definition zone_at (x y half_side : R) : GameObject :=
  mkGameObject Zone (Pose2D.mk (Vector2D.mk x y) (Orient2D.mk 0)) 0
               (rectangle half_side half_side).

Definition wall_at (x y half_length half_thickness : R) : GameObject :=
  mkGameObject Wall (Pose2D.mk (Vector2D.mk x y) (Orient2D.mk 0)) 0
               (rectangle half_length half_thickness).

(** The store holding the listed objects at references 0, 1, ... *)
Definition store_of (l : list GameObject) : Store :=
  fun r => nth r l (zone_at 0 0 0).

(** The example of the specification: robot A at (0,0) with radius 10 and
    robot B with radius 6 at (15,0), respectively at (16,0). *)
Definition duel_15 : Store := store_of [robot_at 0 0 10; robot_at 15 0 6].
Definition duel_16 : Store := store_of [robot_at 0 0 10; robot_at 16 0 6].

Definition duel_16_game : Game := mkGame duel_16 [1%nat; 0%nat].

(** A robot of radius 1 on the corner (0,0) of a square wall, a second
    robot far away, and a zone over the first robot. *)
Definition corner_arena : Store :=
  store_of [robot_at 0 0 1; wall_at 1 1 1 1; robot_at 5 0 1; zone_at 0 0 3].

(** The same arena with the zone elsewhere, and smaller. *)
Definition corner_arena_zone_moved : Store :=
  set corner_arena 3%nat (zone_at 40 40 1).

(** A robot below the bottom edge of the square wall: close to the edge,
    and a robot beside the line of the bottom edge: off the edge. *)
Definition robot_below_edge : GameObject := robot_at 1 (- (1 / 2)) (3 / 4).
Definition robot_beside_edge : GameObject := robot_at 5 (- (1 / 2)) 1.
Definition square_wall : GameObject := wall_at 1 1 1 1.
Definition bottom_edge : LineSegment2D.t :=
  LineSegment2D.mk (Point2D.mk 0 0) (Point2D.mk 2 0).

(** An edge whose two ends are the same point. *)
Definition point_edge : LineSegment2D.t :=
  LineSegment2D.mk (Point2D.mk 0 0) (Point2D.mk 0 0).

(** A robot alone among zones. *)
Definition lone_robot_arena : Store :=
  store_of [zone_at 0 0 3; robot_at 1 1 2; zone_at 2 2 3].

(** A motion for the examples: robots march to the left at unit speed,
    everything else stands still. *)
Definition march_left (o : GameObject) (t_interval : R) : GameObject :=
  match kind o with
  | Robot =>
      mkGameObject (kind o)
        (Pose2D.mk
           (Vector2D.mk (Vector2D.x (Pose2D.position (pose o)) - t_interval)
                        (Vector2D.y (Pose2D.position (pose o))))
           (Pose2D.orientation (pose o)))
        (radius o) (vertex o)
  | _ => o
  end.

(** ** Further notions for the collision check and the tick *)

(** Whether the object behind [a], taken alone, makes the check of the
    robot behind [g] positive: the condition of line 127 for a robot,
    the branch of line 139 entered with the flag down for a wall. *)
Definition hits (st : Store) (g a : ref) : bool :=
  if is_robot_pair st g a then robots_overlap (st g) (st a)
  else if Kind_eqb (kind (st a)) Wall
       then fst (wall_check (st g) (st a) a false)
       else false.

(** The predicates one registered object can cost: one distance for a
    robot, a corner test and an edge test per vertex for a wall. *)
Definition probe_cost (o : GameObject) : nat :=
  match kind o with
  | Robot => 1
  | Wall => 2 * length (vertex o)
  | _ => 0
  end.

Definition probe_budget (st : Store) (others : list ref) : nat :=
  list_sum (map (fun a => probe_cost (st a)) others).

(** A motion update that changes nothing but the pose. *)
Definition pose_only (obj_update : GameObject -> R -> GameObject) : Prop :=
  forall o t_interval,
    kind (obj_update o t_interval) = kind o
    /\ radius (obj_update o t_interval) = radius o
    /\ vertex (obj_update o t_interval) = vertex o.

(** *** Game.run

    [update_time_interval = 1], and the body of [while True]: one tick,
    [time.sleep(update_time_interval)], [print()].  The loop never ends;
    [run_prefix n] is the state of the game and what the process has
    done to the outside when the body has been run [n] times. *)

Inductive Effect : Type :=
| Sleep (seconds : R)
| Print (line : string).

Definition update_time_interval : R := 1.

Section Run.

Variable obj_update : GameObject -> R -> GameObject.

Definition run_iteration (s : Game * list Effect) : Game * list Effect :=
  (update obj_update (fst s) update_time_interval,
   snd s ++ [Sleep update_time_interval; Print EmptyString]).

Definition run_prefix (n : nat) (self : Game) : Game * list Effect :=
  Nat.iter n run_iteration (self, []).

End Run.

(** A wall given by a segment, a robot of radius zero on it, and a robot
    of radius 1 across it. *)
Definition thin_wall : GameObject :=
  mkGameObject Wall (Pose2D.mk (Vector2D.mk 0 0) (Orient2D.mk 0)) 0
               [Vector2D.mk 0 0; Vector2D.mk 2 0].

Definition point_robot_arena : Store :=
  store_of [robot_at 1 0 0; thin_wall; robot_at 1 0 1].

(** An edge of the bottom of a wall that ends at abscissa 0, and a robot
    whose center is a hair beyond that end. *)
Definition edge_ending_at_zero : LineSegment2D.t :=
  LineSegment2D.mk (Point2D.mk (- (2)) 0) (Point2D.mk 0 0).

Definition robot_just_beyond : GameObject := robot_at (1 / 100000) (- (1 / 2)) 1.

(** *** Game.__init__

    The constructor, from the value [json.load] returned on: the file
    itself is not modelled. *)

(** The Python value of a JSON text.  A [JObject] is a [dict], given by
    its items; its keys are distinct. *)
#[warnings="-register-all"]
Inductive json : Type :=
| JNull
| JBool (b : bool)
| JNumber (r : R)
| JString (s : string)
| JArray (items : list json)
| JObject (members : list (string * json)).

Inductive InitError : Type :=
| KeyError (key : string)
| InitTypeError
| RegistrationError (e : PyException).

(** How a step of the constructor ends: with a value, with an exception
    of the constructor's own code, or, [Unmodelled], in a constructor of
    the absent modules called on values of which the specification says
    nothing. *)
Inductive Init (A : Type) : Type :=
| Done (a : A)
| Throws (e : InitError)
| Unmodelled.

Arguments Done {A} a.
Arguments Throws {A} e.
Arguments Unmodelled {A}.

Definition bind {A B : Type} (c : Init A) (k : A -> Init B) : Init B :=
  match c with
  | Done a => k a
  | Throws e => Throws e
  | Unmodelled => Unmodelled
  end.

Notation "x <- c ;; k" := (bind c (fun x => k))
  (at level 61, c at next level, right associativity).

Fixpoint dict_get (members : list (string * json)) (key : string) : option json :=
  match members with
  | [] => None
  | (k, v) :: rest => if String.eqb k key then Some v else dict_get rest key
  end.

(** [value[key]] for a string [key]: a [dict] gives the value or raises
    [KeyError]; lists, strings, numbers, booleans and [None] raise
    [TypeError]. *)
Definition subscript (value : json) (key : string) : Init json :=
  match value with
  | JObject members =>
      match dict_get members key with
      | Some v => Done v
      | None => Throws (KeyError key)
      end
  | _ => Throws InitTypeError
  end.

Fixpoint characters (s : string) : list json :=
  match s with
  | EmptyString => []
  | String c rest => JString (String c EmptyString) :: characters rest
  end.

(** What [for item in value] runs through: the elements of a list, the
    keys of a [dict], the characters of a string; numbers, booleans and
    [None] raise [TypeError]. *)
Definition items_of (value : json) : Init (list json) :=
  match value with
  | JArray items => Done items
  | JObject members => Done (map (fun member => JString (fst member)) members)
  | JString s => Done (characters s)
  | _ => Throws InitTypeError
  end.

(** [math.radians(value)]: [value * (pi / 180)] for a number, a boolean
    counting as 1 or 0; [TypeError] otherwise. *)
Definition radians (value : json) : Init R :=
  match value with
  | JNumber r => Done (r * (PI / 180))
  | JBool b => Done ((if b then 1 else 0) * (PI / 180))
  | _ => Throws InitTypeError
  end.

(** Modelled from the spec: [Vector2D(x, y)] of the absent module
    physics, an "ordered pair of real numbers"; what it does with other
    values is not known. *)
Definition new_Vector2D (x y : json) : Init Vector2D.t :=
  match x, y with
  | JNumber x, JNumber y => Done (Vector2D.mk x y)
  | _, _ => Unmodelled
  end.

(** [Pose2D(position=Vector2D(entry['coords']['x'], entry['coords']['y']),
            orientation=Orient2D(math.radians(entry['orientation'])))],
    the arguments evaluated from left to right. *)
Definition pose_of (entry : json) : Init Pose2D.t :=
  coords <- subscript entry "coords" ;;
  x <- subscript coords "x" ;;
  coords <- subscript entry "coords" ;;
  y <- subscript coords "y" ;;
  position <- new_Vector2D x y ;;
  orientation <- subscript entry "orientation" ;;
  z <- radians orientation ;;
  Done (Pose2D.mk position (Orient2D.mk z)).

(** [for item in items: ...], the exception of a turn ending the loop. *)
Fixpoint for_each {S : Type} (body : json -> S -> Init S) (items : list json) (s : S)
    : Init S :=
  match items with
  | [] => Done s
  | item :: rest =>
      match body item s with
      | Done s' => for_each body rest s'
      | Throws e => Throws e
      | Unmodelled => Unmodelled
      end
  end.

Definition of_option {A : Type} (o : option A) : Init A :=
  match o with
  | Some a => Done a
  | None => Unmodelled
  end.

(** The game under construction, and the next free reference of the
    store. *)
Definition Building : Type := (ref * Game)%type.

(** [self.add_game_object(obj)] for an object [obj] just created. *)
Definition register (s : Building) (obj : GameObject) : Init Building :=
  let r := fst s in
  let self := mkGame (set (objects (snd s)) r obj) (game_objects (snd s)) in
  match add_game_object self (PyGameObject r) with
  | (Returned, self') => Done (S r, self')
  | (Raised e, _) => Throws (RegistrationError e)
  end.

Section Init.

(** Modelled from the spec: the constructors [Map], [Zone], [Wall] and
    [Robot] of the absent modules map and game_objects, "(pose,
    dimensions, identifier) -> Zone | Wall | Robot, each exposing pose,
    bounding radius (Robot), and world-transformable local vertex list
    (Wall)".  How the radius and the vertices come from the dimensions
    is not known: they are given by these functions, [None] where the
    constructor does not give an object. *)
Variable Map : Type.
Variable new_Map : json -> json -> json -> option Map.
Variable Zone_shape : json -> json -> option (R * list Vector2D.t).
Variable Wall_shape : json -> json -> option (R * list Vector2D.t).
Variable Robot_shape : json -> json -> json -> option (R * list Vector2D.t).

(** The body of [for zone in map_config['config']['zones']:],
    lines 60-72. *)
Definition add_zone (map_config zone : json) (s : Building) : Init Building :=
  pose <- pose_of zone ;;
  config <- subscript map_config "config" ;;
  zone_side_length <- subscript config "zone_side_length" ;;
  id <- subscript zone "id" ;;
  shape <- of_option (Zone_shape zone_side_length id) ;;
  register s (mkGameObject Zone pose (fst shape) (snd shape)).

(** The body of [for wall in map_config['config']['walls']:],
    lines 76-85. *)
Definition add_wall (map_config wall : json) (s : Building) : Init Building :=
  pose <- pose_of wall ;;
  length <- subscript wall "length" ;;
  config <- subscript map_config "config" ;;
  wall_thickness <- subscript config "wall_thickness" ;;
  shape <- of_option (Wall_shape length wall_thickness) ;;
  register s (mkGameObject Wall pose (fst shape) (snd shape)).

(** The body of [for robot in map_config['config']['robots']:],
    lines 89-101. *)
Definition add_robot (robot : json) (s : Building) : Init Building :=
  pose <- pose_of robot ;;
  length <- subscript robot "length" ;;
  width <- subscript robot "width" ;;
  robot_id <- subscript robot "robot_id" ;;
  shape <- of_option (Robot_shape length width robot_id) ;;
  register s (mkGameObject Robot pose (fst shape) (snd shape)).

(** One of the three loops: [for entry in map_config['config'][key]:]. *)
Definition add_all (map_config : json) (key : string)
    (body : json -> Building -> Init Building) (s : Building) : Init Building :=
  config <- subscript map_config "config" ;;
  entries <- subscript config key ;;
  items <- items_of entries ;;
  for_each body items s.

(** [Game.__init__], after [json.load]: the map, then the zones, the
    walls and the robots. *)
Definition init (map_config : json) : Init (Map * Game) :=
  let s0 : Building := (0%nat, mkGame (store_of []) []) in
  config <- subscript map_config "config" ;;
  map_width <- subscript config "map_width" ;;
  config <- subscript map_config "config" ;;
  map_height <- subscript config "map_height" ;;
  config <- subscript map_config "config" ;;
  wall_thickness <- subscript config "wall_thickness" ;;
  map <- of_option (new_Map map_width map_height wall_thickness) ;;
  s1 <- add_all map_config "zones" (add_zone map_config) s0 ;;
  s2 <- add_all map_config "walls" (add_wall map_config) s1 ;;
  s3 <- add_all map_config "robots" add_robot s2 ;;
  Done (map, snd s3).

End Init.

(** Where a configuration entry puts an object. *)
Record Placement : Type := mkPlacement {
  at_x : R;
  at_y : R;
  degrees : R
}.

Definition placed (entry : json) (p : Placement) : Prop :=
  exists coords,
    subscript entry "coords" = Done coords
    /\ subscript coords "x" = Done (JNumber (at_x p))
    /\ subscript coords "y" = Done (JNumber (at_y p))
    /\ subscript entry "orientation" = Done (JNumber (degrees p)).

Definition pose_at (p : Placement) : Pose2D.t :=
  Pose2D.mk (Vector2D.mk (at_x p) (at_y p)) (Orient2D.mk (degrees p * (PI / 180))).

Section Described.

Variable Zone_shape : json -> json -> option (R * list Vector2D.t).
Variable Wall_shape : json -> json -> option (R * list Vector2D.t).
Variable Robot_shape : json -> json -> json -> option (R * list Vector2D.t).

(** The object a well-formed entry of [zones], [walls] or [robots]
    describes. *)
Definition zone_described (config entry : json) (o : GameObject) : Prop :=
  exists p zone_side_length id shape,
    placed entry p
    /\ subscript config "zone_side_length" = Done zone_side_length
    /\ subscript entry "id" = Done id
    /\ Zone_shape zone_side_length id = Some shape
    /\ o = mkGameObject Zone (pose_at p) (fst shape) (snd shape).

Definition wall_described (config entry : json) (o : GameObject) : Prop :=
  exists p length wall_thickness shape,
    placed entry p
    /\ subscript entry "length" = Done length
    /\ subscript config "wall_thickness" = Done wall_thickness
    /\ Wall_shape length wall_thickness = Some shape
    /\ o = mkGameObject Wall (pose_at p) (fst shape) (snd shape).

Definition robot_described (entry : json) (o : GameObject) : Prop :=
  exists p length width robot_id shape,
    placed entry p
    /\ subscript entry "length" = Done length
    /\ subscript entry "width" = Done width
    /\ subscript entry "robot_id" = Done robot_id
    /\ Robot_shape length width robot_id = Some shape
    /\ o = mkGameObject Robot (pose_at p) (fst shape) (snd shape).

End Described.

(** The game under construction holds exactly the objects [objs], at the
    references 0, 1, ..., each registered once, in this order. *)
Definition represents (s : Building) (objs : list GameObject) : Prop :=
  fst s = length objs
  /\ game_objects (snd s) = seq 0 (length objs)
  /\ (forall r, objects (snd s) r = store_of objs r).

(** A configuration for the examples, and constructors that give every
    zone and wall a square of side 2 and every robot the radius 1. *)
Definition entry_at (x y orientation : R) (more : list (string * json)) : json :=
  JObject (("coords", JObject [("x", JNumber x); ("y", JNumber y)])
           :: ("orientation", JNumber orientation) :: more)%string.

Definition example_members (zone_side_length : list (string * json)) (zones : json)
    : list (string * json) :=
  ([("map_width", JNumber 8000); ("map_height", JNumber 5000);
    ("wall_thickness", JNumber 50)]
   ++ zone_side_length
   ++ [("zones", zones);
       ("walls", JArray [entry_at 4000 2500 90 [("length", JNumber 1000)]]);
       ("robots",
        JArray [entry_at 500 500 180
                  [("length", JNumber 600); ("width", JNumber 450);
                   ("robot_id", JNumber 1)]])])%list%string.

Definition example_settings (zone_side_length : list (string * json)) (zones : json)
    : json :=
  JObject (example_members zone_side_length zones).

Definition example_config (zone_side_length : list (string * json)) (zones : json)
    : json :=
  JObject [("config", example_settings zone_side_length zones)]%string.

Definition example_zone : json := entry_at 1000 1000 0 [("id", JString "A")]%string.

Definition example_Map (width height wall_thickness : json) : option (json * json * json) :=
  Some (width, height, wall_thickness).

Definition square_shape (dimension other : json) : option (R * list Vector2D.t) :=
  Some (0, rectangle 1 1).
Definition disc_shape (length width robot_id : json) : option (R * list Vector2D.t) :=
  Some (1, []).

Definition example_wall_object : GameObject :=
  mkGameObject Wall (pose_at (mkPlacement 4000 2500 90)) 0 (rectangle 1 1).
Definition example_robot_object : GameObject :=
  mkGameObject Robot (pose_at (mkPlacement 500 500 180)) 1 [].
Definition example_zone_object : GameObject :=
  mkGameObject Zone (pose_at (mkPlacement 1000 1000 0)) 0 (rectangle 1 1).

(** The same object with another radius. *)
Definition with_radius (o : GameObject) (r : R) : GameObject :=
  mkGameObject (kind o) (pose o) r (vertex o).

(** ** Notions for the order of evaluation, the rollback and the edge test *)

Definition Probe_eq_dec (p q : Probe) : {p = q} + {p <> q}.
Proof. decide equality; apply Nat.eq_dec. Defined.

(** The predicates one passage over the object behind [a] can evaluate:
    the distance to it when it is a robot; for a wall its corners from
    the first on, then its edges from the first on, with no index
    beyond its vertices; nothing at all is possible too. *)
Definition own_probes (st : Store) (a : ref) (l : list Probe) : Prop :=
  l = [ProbeRobot a]
  \/ exists k m,
       (k <= length (vertex (st a)))%nat /\ (m <= length (vertex (st a)))%nat
       /\ l = map (ProbeVertex a) (seq 0 k) ++ map (ProbeEdge a) (seq 0 m).

(** "Collision candidates are evaluated against the other objects in
    registration order": the predicates evaluated come in consecutive
    blocks, one for each registered object, in the order of
    registration. *)
Inductive in_registration_order (st : Store) : list ref -> list Probe -> Prop :=
| order_nil : in_registration_order st [] []
| order_cons (a : ref) (rest : list ref) (la l : list Probe) :
    own_probes st a la ->
    in_registration_order st rest l ->
    in_registration_order st (a :: rest) (la ++ l).

Section RollbackAtTickEnd.

Variable obj_update : GameObject -> R -> GameObject.


End RollbackAtTickEnd.


(** *** The edge test, whatever the geometry

    The body of [for edge in edges] and the loop, lines 169-203, with
    the three operations of the absent module collision_engine_2d that
    they call taken as parameters. *)

Section EdgeTest.

Variable find_perpendicular : LineSegment2D.t -> Point2D.t -> Line2D.t.
Variable find_intersection : Line2D.t -> LineSegment2D.t -> option Point2D.t.
Variable find_distance : LineSegment2D.t -> Point2D.t -> R.



End EdgeTest.





(** Unfolding of the geometry of the examples. *)
Ltac geometry :=
  cbv [Line2D.find_intersection Line2D.cross Line2D.dx Line2D.dy Line2D.p Line2D.q
       LineSegment2D.find_perpendicular LineSegment2D.find_distance
       LineSegment2D.line LineSegment2D.point1 LineSegment2D.point2
       Point2D.x Point2D.y Vector2D.x Vector2D.y Vector2D.add Vector2D.rotate
       Vector2D.find_distance Pose2D.position Pose2D.orientation Orient2D.z
       pose radius vertex center world_vertex
       bottom_edge robot_below_edge robot_beside_edge robot_at square_wall wall_at
       spec_within_bounding_box spec_within_tolerance] in *.

(** * Properties *)

(** ** Comparisons *)

Lemma Rltb_true_iff (a b : R) : Rltb a b = true <-> a < b.
Proof. unfold Rltb. destruct (Rlt_dec a b); split; intros; congruence || assumption. Qed.

Lemma Rltb_false_iff (a b : R) : Rltb a b = false <-> b <= a.
Proof.
  unfold Rltb. destruct (Rlt_dec a b); split; intros; try congruence; lra.
Qed.

Lemma Rleb_true_iff (a b : R) : Rleb a b = true <-> a <= b.
Proof. unfold Rleb. destruct (Rle_dec a b); split; intros; congruence || assumption. Qed.

Lemma Rleb_false_iff (a b : R) : Rleb a b = false <-> b < a.
Proof.
  unfold Rleb. destruct (Rle_dec a b); split; intros; try congruence; lra.
Qed.

Lemma Rgeb_true_iff (a b : R) : Rgeb a b = true <-> a >= b.
Proof. unfold Rgeb. rewrite Rleb_true_iff. split; lra. Qed.

Lemma isclose_true_iff (a b rel_tol : R) :
  isclose a b rel_tol = true <->
  Rabs (a - b) <= Rmax (rel_tol * Rmax (Rabs a) (Rabs b)) 0.
Proof. unfold isclose. apply Rleb_true_iff. Qed.

Lemma Kind_eqb_eq (k1 k2 : Kind) : Kind_eqb k1 k2 = true <-> k1 = k2.
Proof. destruct k1, k2; simpl; split; congruence. Qed.

Lemma Kind_eqb_neq (k1 k2 : Kind) : Kind_eqb k1 k2 = false <-> k1 <> k2.
Proof. destruct k1, k2; simpl; split; congruence. Qed.

(** ** The store *)

Lemma set_same (st : Store) (r : ref) (o : GameObject) : set st r o r = o.
Proof. unfold set. now rewrite Nat.eqb_refl. Qed.

Lemma set_other (st : Store) (r r' : ref) (o : GameObject) :
  r' <> r -> set st r o r' = st r'.
Proof. intros H. unfold set. apply Nat.eqb_neq in H. now rewrite H. Qed.

Lemma deepcopy_eq (p : Pose2D.t) : deepcopy p = p.
Proof. destruct p as [[px py] [oz]]. reflexivity. Qed.

(** ** Distances *)

Lemma find_distance_nonneg (u v : Vector2D.t) : 0 <= Vector2D.find_distance u v.
Proof. unfold Vector2D.find_distance. apply sqrt_pos. Qed.

Lemma find_distance_self (v : Vector2D.t) : Vector2D.find_distance v v = 0.
Proof.
  unfold Vector2D.find_distance.
  replace ((Vector2D.x v - Vector2D.x v) * (Vector2D.x v - Vector2D.x v)
           + (Vector2D.y v - Vector2D.y v) * (Vector2D.y v - Vector2D.y v)) with 0 by ring.
  apply sqrt_0.
Qed.

(** Two points at the same height are as far apart as their abscissas. *)
Lemma find_distance_level (a b c : R) :
  Vector2D.find_distance (Vector2D.mk a c) (Vector2D.mk b c) = Rabs (a - b).
Proof.
  unfold Vector2D.find_distance. simpl.
  replace ((a - b) * (a - b) + (c - c) * (c - c)) with (Rsqr (a - b))
    by (unfold Rsqr; ring).
  apply sqrt_Rsqr_abs.
Qed.

(** ** The robot-robot test *)

Lemma is_robot_pair_true (st : Store) (g a : ref) :
  is_robot_pair st g a = true <-> kind (st a) = Robot /\ g <> a.
Proof.
  unfold is_robot_pair. rewrite andb_true_iff, Kind_eqb_eq, negb_true_iff, Nat.eqb_neq.
  tauto.
Qed.

Lemma robots_overlap_true (game_obj another_obj : GameObject) :
  robots_overlap game_obj another_obj = true <->
  Vector2D.find_distance (Pose2D.position (pose game_obj))
                         (Pose2D.position (pose another_obj))
  < radius game_obj + radius another_obj.
Proof. apply Rltb_true_iff. Qed.

(** In an arena without walls the flag is raised by the robot-robot test
    alone. *)
Lemma scan_no_wall (st : Store) (g : ref) (others : list ref) :
  Forall (no_wall st) others ->
  fst (scan st g others false) = true <->
  exists a, In a others /\ is_robot_pair st g a = true
            /\ robots_overlap (st g) (st a) = true.
Proof.
  induction 1 as [|a rest Ha Hrest IH]; simpl.
  - split; [discriminate | intros [a [[] _]]].
  - destruct (is_robot_pair st g a) eqn:Hp.
    + destruct (robots_overlap (st g) (st a)) eqn:Ho.
      * simpl. split; [intros _; exists a; auto | reflexivity].
      * destruct (scan st g rest false) as [c l] eqn:Hs. simpl in *.
        rewrite IH. split.
        -- intros [b [Hb H]]. exists b. auto.
        -- intros [b [[Hb | Hb] [Hp' Ho']]].
           ++ subst b. congruence.
           ++ exists b. auto.
    + apply Kind_eqb_neq in Ha. rewrite Ha. rewrite IH. split.
      * intros [b [Hb H]]. exists b. auto.
      * intros [b [[Hb | Hb] [Hp' Ho']]].
        -- subst b. congruence.
        -- exists b. auto.
Qed.

(** C1. Circle-circle predicate: for two distinct robots [g] and [a], the
    check of [g] against [a] reports a collision iff the Euclidean
    distance between their positions is strictly less than the sum of
    their radii; at tangency (distance equal to the sum) no collision is
    reported.  More generally, in an arena without walls the check of
    [g] reports a collision iff some other registered robot is strictly
    closer than the sum of the radii. *)
Theorem circle_circle_strict (st : Store) (g a : ref) :
  g <> a -> kind (st g) = Robot -> kind (st a) = Robot ->
  let pg := Pose2D.position (pose (st g)) in
  let pa := Pose2D.position (pose (st a)) in
  let distance :=
    sqrt ((Vector2D.x pg - Vector2D.x pa) * (Vector2D.x pg - Vector2D.x pa)
          + (Vector2D.y pg - Vector2D.y pa) * (Vector2D.y pg - Vector2D.y pa)) in
  (collision_check st [a] g = true <-> distance < radius (st g) + radius (st a))
  /\ (distance = radius (st g) + radius (st a) -> collision_check st [a] g = false)
  /\ (forall others, Forall (no_wall st) others ->
        (collision_check st others g = true <->
         exists b, In b others /\ b <> g /\ kind (st b) = Robot /\
           Vector2D.find_distance pg (Pose2D.position (pose (st b)))
           < radius (st g) + radius (st b))).
Proof.
  intros Hne Hg Ha pg pa distance.
  assert (Hpair : is_robot_pair st g a = true) by (apply is_robot_pair_true; auto).
  assert (Hone : collision_check st [a] g = robots_overlap (st g) (st a)).
  { unfold collision_check. simpl. rewrite Hpair.
    destruct (robots_overlap (st g) (st a)); reflexivity. }
  split; [|split].
  - rewrite Hone. apply robots_overlap_true.
  - intros Heq. rewrite Hone. apply Rltb_false_iff.
    fold pg pa. unfold Vector2D.find_distance. fold distance. lra.
  - intros others Hw. unfold collision_check. rewrite (scan_no_wall st g others Hw).
    split.
    + intros [b [Hb [Hp Ho]]]. apply is_robot_pair_true in Hp as [Hk Hn].
      exists b. repeat split; auto. now apply robots_overlap_true.
    + intros [b [Hb [Hn [Hk Ho]]]]. exists b. repeat split; auto.
      * apply is_robot_pair_true; auto.
      * now apply robots_overlap_true.
Qed.

(** ** Loops that break *)

(** A list either has no element satisfying a test, or has a first one. *)
Lemma first_true {A : Type} (f : A -> bool) (l : list A) :
  Forall (fun x => f x = false) l \/
  exists l1 x l2, l = l1 ++ x :: l2 /\ Forall (fun x => f x = false) l1 /\ f x = true.
Proof.
  induction l as [|x l IH].
  - left. constructor.
  - destruct (f x) eqn:Hx.
    + right. exists [], x, l. repeat split; auto.
    + destruct IH as [IH | [l1 [y [l2 [Hl [Hl1 Hy]]]]]].
      * left. constructor; auto.
      * right. exists (x :: l1), y, l2. subst l. repeat split; auto.
Qed.

Lemma vertex_loop_flag (game_obj another_obj : GameObject) (a : ref) (i : nat)
    (vs coords : list Vector2D.t) :
  vertex_loop game_obj another_obj a i vs true coords = (true, coords, []).
Proof. destruct vs; reflexivity. Qed.

Lemma vertex_loop_miss (game_obj another_obj : GameObject) (a : ref)
    (vs : list Vector2D.t) :
  Forall (fun v => corner_hit game_obj (world_vertex another_obj v) = false) vs ->
  forall i coords,
    vertex_loop game_obj another_obj a i vs false coords
    = (false, coords ++ map (world_vertex another_obj) vs,
       map (ProbeVertex a) (seq i (length vs))).
Proof.
  induction 1 as [|v vs Hv Hvs IH]; intros i coords; simpl.
  - now rewrite app_nil_r.
  - rewrite Hv, IH, <- app_assoc. reflexivity.
Qed.

Lemma vertex_loop_hit (game_obj another_obj : GameObject) (a : ref)
    (vs1 : list Vector2D.t) (v : Vector2D.t) (vs2 : list Vector2D.t) :
  Forall (fun v => corner_hit game_obj (world_vertex another_obj v) = false) vs1 ->
  corner_hit game_obj (world_vertex another_obj v) = true ->
  forall i coords,
    vertex_loop game_obj another_obj a i (vs1 ++ v :: vs2) false coords
    = (true, coords ++ map (world_vertex another_obj) vs1,
       map (ProbeVertex a) (seq i (S (length vs1)))).
Proof.
  intros Hvs1 Hv. induction Hvs1 as [|u vs1 Hu Hvs1 IH]; intros i coords; simpl.
  - now rewrite Hv, app_nil_r.
  - rewrite Hu, IH, <- app_assoc. reflexivity.
Qed.

Lemma edges_loop_flag (coords : list Vector2D.t) (range : list nat)
    (edges : list LineSegment2D.t) :
  edges_loop coords range true edges = edges.
Proof. destruct range; reflexivity. Qed.

Lemma edges_loop_all (coords : list Vector2D.t) (range : list nat) :
  forall edges,
    edges_loop coords range false edges = edges ++ map (edge_at coords) range.
Proof.
  induction range as [|i range IH]; intros edges; simpl.
  - now rewrite app_nil_r.
  - rewrite IH, <- app_assoc. reflexivity.
Qed.

Lemma edge_loop_flag (game_obj : GameObject) (a : ref) (i : nat)
    (edges : list LineSegment2D.t) :
  edge_loop game_obj a i edges true = (true, []).
Proof. destruct edges; reflexivity. Qed.

Lemma edge_loop_miss (game_obj : GameObject) (a : ref) (edges : list LineSegment2D.t) :
  Forall (fun e => edge_hit game_obj e = false) edges ->
  forall i,
    edge_loop game_obj a i edges false
    = (false, map (ProbeEdge a) (seq i (length edges))).
Proof.
  induction 1 as [|e edges He Hes IH]; intros i; simpl.
  - reflexivity.
  - now rewrite He, IH.
Qed.

Lemma edge_loop_hit (game_obj : GameObject) (a : ref)
    (es1 : list LineSegment2D.t) (e : LineSegment2D.t) (es2 : list LineSegment2D.t) :
  Forall (fun e => edge_hit game_obj e = false) es1 ->
  edge_hit game_obj e = true ->
  forall i,
    edge_loop game_obj a i (es1 ++ e :: es2) false
    = (true, map (ProbeEdge a) (seq i (S (length es1)))).
Proof.
  intros Hes1 He. induction Hes1 as [|u es1 Hu Hes1 IH]; intros i; simpl.
  - now rewrite He.
  - now rewrite Hu, IH.
Qed.

Lemma wall_check_flag (game_obj another_obj : GameObject) (a : ref) :
  wall_check game_obj another_obj a true = (true, []).
Proof.
  unfold wall_check. rewrite vertex_loop_flag, edges_loop_flag. reflexivity.
Qed.

Lemma wall_check_corner (game_obj another_obj : GameObject) (a : ref)
    (vs1 : list Vector2D.t) (v : Vector2D.t) (vs2 : list Vector2D.t) :
  vertex another_obj = vs1 ++ v :: vs2 ->
  Forall (fun v => corner_hit game_obj (world_vertex another_obj v) = false) vs1 ->
  corner_hit game_obj (world_vertex another_obj v) = true ->
  wall_check game_obj another_obj a false
  = (true, map (ProbeVertex a) (seq 0 (S (length vs1)))).
Proof.
  intros Hvs Hvs1 Hv. unfold wall_check.
  rewrite Hvs, (vertex_loop_hit _ _ _ _ _ _ Hvs1 Hv), edges_loop_flag.
  cbn [edge_loop]. now rewrite app_nil_r.
Qed.

Lemma wall_check_no_corner (game_obj another_obj : GameObject) (a : ref) :
  Forall (fun v => corner_hit game_obj (world_vertex another_obj v) = false)
         (vertex another_obj) ->
  let coords := map (world_vertex another_obj) (vertex another_obj) in
  let edges := map (edge_at coords) (seq 0 (length coords)) in
  wall_check game_obj another_obj a false
  = (fst (edge_loop game_obj a 0 edges false),
     map (ProbeVertex a) (seq 0 (length (vertex another_obj)))
     ++ snd (edge_loop game_obj a 0 edges false)).
Proof.
  intros Hvs coords edges. unfold wall_check.
  rewrite (vertex_loop_miss _ _ _ _ Hvs). cbn [app].
  rewrite edges_loop_all. cbn [app]. fold coords. fold edges.
  destruct (edge_loop game_obj a 0 edges false). reflexivity.
Qed.

(** Once raised, the flag stays raised. *)
Lemma scan_flag (st : Store) (g : ref) (others : list ref) :
  fst (scan st g others true) = true.
Proof.
  induction others as [|a rest IH]; simpl; [reflexivity|].
  destruct (is_robot_pair st g a).
  - destruct (robots_overlap (st g) (st a)); [reflexivity|].
    destruct (scan st g rest true). exact IH.
  - destruct (Kind_eqb (kind (st a)) Wall); [|exact IH].
    rewrite wall_check_flag. destruct (scan st g rest true). exact IH.
Qed.

Lemma wall_check_any_corner (game_obj another_obj : GameObject) (a : ref)
    (v : Vector2D.t) (collision : bool) :
  In v (vertex another_obj) ->
  corner_hit game_obj (world_vertex another_obj v) = true ->
  fst (wall_check game_obj another_obj a collision) = true.
Proof.
  intros Hin Hv. destruct collision; [now rewrite wall_check_flag|].
  destruct (first_true (fun v => corner_hit game_obj (world_vertex another_obj v))
                       (vertex another_obj))
    as [Hall | [vs1 [u [vs2 [Hvs [Hvs1 Hu]]]]]].
  - rewrite Forall_forall in Hall. specialize (Hall v Hin). simpl in Hall. congruence.
  - now rewrite (wall_check_corner _ _ _ _ _ _ Hvs Hvs1 Hu).
Qed.

Lemma scan_corner (st : Store) (g a : ref) (v : Vector2D.t) (others : list ref) :
  In a others -> kind (st a) = Wall -> In v (vertex (st a)) ->
  corner_hit (st g) (world_vertex (st a) v) = true ->
  forall collision, fst (scan st g others collision) = true.
Proof.
  intros Hin Hk Hv Hhit.
  induction others as [|b rest IH]; [destruct Hin|].
  intros collision. simpl.
  destruct (is_robot_pair st g b) eqn:Hp.
  - destruct (robots_overlap (st g) (st b)); [reflexivity|].
    destruct Hin as [-> | Hin].
    + apply is_robot_pair_true in Hp as [Hp _]. congruence.
    + specialize (IH Hin collision). destruct (scan st g rest collision). exact IH.
  - destruct Hin as [-> | Hin].
    + rewrite Hk. simpl.
      pose proof (wall_check_any_corner (st g) (st a) a v collision Hv Hhit) as Hw.
      destruct (wall_check (st g) (st a) a collision) as [c1 l1]. simpl in Hw. subst c1.
      pose proof (scan_flag st g rest) as Hs.
      destruct (scan st g rest true). exact Hs.
    + destruct (Kind_eqb (kind (st b)) Wall); [|now apply IH].
      destruct (wall_check (st g) (st b) b collision) as [c1 l1].
      specialize (IH Hin c1). destruct (scan st g rest c1). exact IH.
Qed.

(** C3. Circle-polygon corner test: each local vertex of a wall is taken
    to the world frame by rotating it by the wall's orientation and then
    adding the wall's position; the check reports a collision whenever
    some registered wall has a world-frame corner strictly closer to the
    robot's center than the robot's radius; in particular a robot of
    positive radius whose center is on such a corner collides. *)
Theorem wall_corner_collides (st : Store) (game_objects : list ref) (g a : ref)
    (v : Vector2D.t) :
  In a game_objects -> kind (st a) = Wall -> In v (vertex (st a)) ->
  let theta := Orient2D.z (Pose2D.orientation (pose (st a))) in
  let p := Pose2D.position (pose (st a)) in
  world_vertex (st a) v
  = Vector2D.mk
      (Vector2D.x v * cos theta - Vector2D.y v * sin theta + Vector2D.x p)
      (Vector2D.x v * sin theta + Vector2D.y v * cos theta + Vector2D.y p)
  /\ (Vector2D.find_distance (world_vertex (st a) v) (Pose2D.position (pose (st g)))
      < radius (st g) ->
      collision_check st game_objects g = true)
  /\ (Pose2D.position (pose (st g)) = world_vertex (st a) v -> 0 < radius (st g) ->
      collision_check st game_objects g = true).
Proof.
  intros Hin Hk Hv theta p.
  assert (Hclose : Vector2D.find_distance (world_vertex (st a) v)
                     (Pose2D.position (pose (st g))) < radius (st g) ->
                   collision_check st game_objects g = true).
  { intros Hd. unfold collision_check. apply (scan_corner st g a v); auto.
    now apply Rltb_true_iff. }
  split; [reflexivity|]. split; [exact Hclose|].
  intros Hc Hr. apply Hclose. rewrite Hc, find_distance_self. exact Hr.
Qed.

(** ** The edge test *)

Lemma isclose_spec (value bound : R) :
  isclose value bound rel_tol_1e_4 = true <-> spec_within_tolerance value bound.
Proof.
  rewrite isclose_true_iff. unfold spec_within_tolerance, rel_tol_1e_4.
  rewrite Rmax_left; [tauto|].
  pose proof (Rabs_pos value). pose proof (Rmax_l (Rabs value) (Rabs bound)).
  assert (0 <= Rmax (Rabs value) (Rabs bound)) by lra. lra.
Qed.

Lemma in_bounding_box_spec (edge : LineSegment2D.t) (point : Point2D.t) :
  in_bounding_box edge point = true <-> spec_within_bounding_box edge point.
Proof.
  unfold in_bounding_box, spec_within_bounding_box.
  rewrite !andb_true_iff, !orb_true_iff, !Rleb_true_iff, !Rgeb_true_iff, !isclose_spec.
  intuition lra.
Qed.

Lemma edge_hit_spec (game_obj : GameObject) (edge : LineSegment2D.t) :
  edge_hit game_obj edge = true <->
  exists point,
    Line2D.find_intersection
      (LineSegment2D.find_perpendicular edge (center game_obj))
      (LineSegment2D.line edge) = Some point
    /\ spec_within_bounding_box edge point
    /\ LineSegment2D.find_distance edge (center game_obj) < radius game_obj.
Proof.
  unfold edge_hit.
  destruct (Line2D.find_intersection _ _) as [point|].
  - destruct (in_bounding_box edge point) eqn:Hbox.
    + apply in_bounding_box_spec in Hbox. rewrite Rltb_true_iff. split.
      * intros Hd. exists point. auto.
      * intros [pt [Hpt [_ Hd]]]. exact Hd.
    + split; [discriminate|]. intros [pt [Hpt [Hin _]]].
      injection Hpt as <-. apply in_bounding_box_spec in Hin. congruence.
  - split; [discriminate|]. intros [pt [Hpt _]]. discriminate.
Qed.

Lemma edge_loop_exists (game_obj : GameObject) (a : ref) (i : nat)
    (edges : list LineSegment2D.t) :
  fst (edge_loop game_obj a i edges false) = true <->
  exists e, In e edges /\ edge_hit game_obj e = true.
Proof.
  destruct (first_true (edge_hit game_obj) edges)
    as [Hall | [es1 [e [es2 [Hes [Hes1 He]]]]]].
  - rewrite (edge_loop_miss _ _ _ Hall). simpl. split; [discriminate|].
    intros [e [Hin He]]. rewrite Forall_forall in Hall. apply Hall in Hin. congruence.
  - subst edges. rewrite (edge_loop_hit _ _ _ _ _ Hes1 He). simpl.
    split; [|reflexivity]. intros _. exists e. split; [|exact He].
    apply in_or_app. right. now left.
Qed.

Lemma edge_at_wrap (coords : list Vector2D.t) :
  (0 < length coords)%nat ->
  edge_at coords (length coords - 1)
  = LineSegment2D.mk (to_point (nth (length coords - 1) coords origin))
                     (to_point (nth 0 coords origin)).
Proof.
  intros Hn. unfold edge_at.
  replace (length coords - 1 + 1)%nat with (length coords) by lia.
  rewrite Nat.Div0.mod_same. reflexivity.
Qed.

(** C4. Circle-polygon edge test, for a wall none of whose corners is hit.
    The wall's edges join world-frame corner [i] to corner [(i+1) mod n],
    the last one back to the first; the wall raises the flag iff one of
    these edges is hit.  An edge is hit iff the perpendicular through the
    robot's center meets the edge's line in a point that lies within the
    edge's bounding box, up to relative tolerance 1e-4 on each bound, and
    the distance from the center to the edge's line is strictly less than
    the radius.  When the meeting point is outside the box beyond the
    tolerance, the edge is not hit. *)
Theorem wall_edge_test (game_obj another_obj : GameObject) (a : ref) :
  Forall (fun v => corner_hit game_obj (world_vertex another_obj v) = false)
         (vertex another_obj) ->
  let coords := map (world_vertex another_obj) (vertex another_obj) in
  let n := length coords in
  let foot edge :=
    Line2D.find_intersection
      (LineSegment2D.find_perpendicular edge (center game_obj))
      (LineSegment2D.line edge) in
  (fst (wall_check game_obj another_obj a false) = true <->
   exists i, (i < n)%nat /\ edge_hit game_obj (edge_at coords i) = true)
  /\ (forall i, (i < n)%nat ->
        edge_at coords i
        = LineSegment2D.mk (to_point (nth i coords origin))
                           (to_point (nth ((i + 1) mod n) coords origin)))
  /\ ((0 < n)%nat ->
        edge_at coords (n - 1)
        = LineSegment2D.mk (to_point (nth (n - 1) coords origin))
                           (to_point (nth 0 coords origin)))
  /\ (forall edge,
        edge_hit game_obj edge = true <->
        exists point,
          foot edge = Some point
          /\ spec_within_bounding_box edge point
          /\ LineSegment2D.find_distance edge (center game_obj) < radius game_obj)
  /\ (forall edge point,
        foot edge = Some point -> ~ spec_within_bounding_box edge point ->
        edge_hit game_obj edge = false).
Proof.
  intros Hmiss coords n foot.
  split; [|split; [|split; [|split]]].
  - rewrite (wall_check_no_corner _ _ _ Hmiss). cbn [fst]. fold coords. fold n.
    rewrite edge_loop_exists. split.
    + intros [e [Hin He]].
      apply in_map_iff in Hin as [i [<- Hi]]. apply in_seq in Hi.
      exists i. split; [lia | exact He].
    + intros [i [Hi He]]. exists (edge_at coords i). split; [|exact He].
      apply in_map. apply in_seq. lia.
  - intros i Hi. reflexivity.
  - apply edge_at_wrap.
  - intros edge. apply edge_hit_spec.
  - intros edge point Hfoot Hout.
    destruct (edge_hit game_obj edge) eqn:He; [|reflexivity].
    apply edge_hit_spec in He as [pt [Hpt [Hin _]]]. unfold foot in Hfoot.
    rewrite Hfoot in Hpt. injection Hpt as <-. contradiction.
Qed.

(** ** What is evaluated, and in which order *)







(** ** The order of evaluation *)

Lemma vertex_loop_shape (game_obj another_obj : GameObject) (a : ref)
    (vs : list Vector2D.t) :
  forall i collision coords,
    exists k,
      (k <= length vs)%nat
      /\ snd (vertex_loop game_obj another_obj a i vs collision coords)
         = map (ProbeVertex a) (seq i k)
      /\ (length (snd (fst (vertex_loop game_obj another_obj a i vs collision coords)))
          <= length coords + length vs)%nat.
Proof.
  induction vs as [|v vs IH]; intros i collision coords; simpl.
  - exists 0%nat. repeat split; simpl; lia.
  - destruct collision; [exists 0%nat; repeat split; simpl; lia|].
    destruct (corner_hit game_obj (world_vertex another_obj v)).
    + exists 1%nat. repeat split; simpl; lia.
    + destruct (IH (S i) false (coords ++ [world_vertex another_obj v]))
        as [k [Hk [Hlog Hlen]]].
      destruct (vertex_loop _ _ _ _ _ _ _) as [[c cs] l]. simpl in *.
      rewrite length_app in Hlen. simpl in Hlen.
      exists (S k). subst l. repeat split; simpl; lia.
Qed.

Lemma edges_loop_length (coords : list Vector2D.t) (range : list nat) (collision : bool) :
  forall edges,
    (length (edges_loop coords range collision edges) <= length edges + length range)%nat.
Proof.
  induction range as [|i range IH]; intros edges; simpl; [lia|].
  destruct collision; [lia|].
  specialize (IH (edges ++ [edge_at coords i])). rewrite length_app in IH.
  simpl in IH. lia.
Qed.

Lemma edge_loop_shape (game_obj : GameObject) (a : ref) (edges : list LineSegment2D.t) :
  forall i collision,
    exists m,
      (m <= length edges)%nat
      /\ snd (edge_loop game_obj a i edges collision) = map (ProbeEdge a) (seq i m).
Proof.
  induction edges as [|e edges IH]; intros i collision; simpl.
  - exists 0%nat. split; [lia | reflexivity].
  - destruct collision; [exists 0%nat; split; [lia | reflexivity]|].
    destruct (edge_hit game_obj e); [exists 1%nat; split; [lia | reflexivity]|].
    destruct (IH (S i) false) as [m [Hm Hlog]].
    destruct (edge_loop _ _ _ _ _) as [c l]. simpl in *.
    exists (S m). subst l. split; [lia | reflexivity].
Qed.

Lemma wall_check_shape (st : Store) (g a : ref) (collision : bool) :
  own_probes st a (snd (wall_check (st g) (st a) a collision)).
Proof.
  right. unfold wall_check.
  destruct (vertex_loop_shape (st g) (st a) a (vertex (st a)) 0 collision [])
    as [k [Hk [Hlog Hlen]]].
  destruct (vertex_loop _ _ _ _ _ _ _) as [[c1 coords] l1]. simpl in Hlog, Hlen.
  pose proof (edges_loop_length coords (seq 0 (length coords)) c1 []) as Hes.
  rewrite length_seq in Hes. simpl in Hes.
  destruct (edge_loop_shape (st g) a
              (edges_loop coords (seq 0 (length coords)) c1 []) 0 c1)
    as [m [Hm Hlog2]].
  destruct (edge_loop _ _ _ _ _) as [c2 l2]. simpl in *.
  exists k, m. subst l1 l2. repeat split; lia.
Qed.

Lemma own_probes_none (st : Store) (a : ref) : own_probes st a [].
Proof. right. exists 0%nat, 0%nat. repeat split; lia. Qed.

Lemma in_registration_order_none (st : Store) (others : list ref) :
  in_registration_order st others [].
Proof.
  induction others as [|a rest IH]; [constructor|].
  change (@nil Probe) with (@nil Probe ++ []).
  constructor; [apply own_probes_none | exact IH].
Qed.

Lemma scan_in_registration_order (st : Store) (g : ref) (others : list ref) :
  forall collision,
    in_registration_order st others (snd (scan st g others collision)).
Proof.
  induction others as [|a rest IH]; intros collision; simpl; [constructor|].
  destruct (is_robot_pair st g a).
  - destruct (robots_overlap (st g) (st a)).
    + change [ProbeRobot a] with ([ProbeRobot a] ++ []).
      constructor; [now left | apply in_registration_order_none].
    + specialize (IH collision). destruct (scan st g rest collision) as [c l].
      simpl in *. change (ProbeRobot a :: l) with ([ProbeRobot a] ++ l).
      constructor; [now left | exact IH].
  - destruct (Kind_eqb (kind (st a)) Wall).
    + pose proof (wall_check_shape st g a collision) as Hw.
      destruct (wall_check (st g) (st a) a collision) as [c1 l1].
      specialize (IH c1). destruct (scan st g rest c1) as [c2 l2]. simpl in *.
      now constructor.
    + specialize (IH collision).
      change (snd (scan st g rest collision))
        with ([] ++ snd (scan st g rest collision)).
      constructor; [apply own_probes_none | exact IH].
Qed.


(** ** Which objects are tested *)

Lemma vertex_loop_probes (game_obj another_obj : GameObject) (a : ref)
    (vs : list Vector2D.t) :
  forall i collision coords,
    Forall (fun p => probe_target p = a /\ is_robot_probe p = false)
           (snd (vertex_loop game_obj another_obj a i vs collision coords)).
Proof.
  induction vs as [|v vs IH]; intros i collision coords; simpl; [constructor|].
  destruct collision; [constructor|].
  destruct (corner_hit game_obj (world_vertex another_obj v)).
  - repeat constructor.
  - specialize (IH (S i) false (coords ++ [world_vertex another_obj v])).
    destruct (vertex_loop _ _ _ _ _ _ _) as [[c cs] l]. simpl in *.
    constructor; auto.
Qed.

Lemma edge_loop_probes (game_obj : GameObject) (a : ref) (edges : list LineSegment2D.t) :
  forall i collision,
    Forall (fun p => probe_target p = a /\ is_robot_probe p = false)
           (snd (edge_loop game_obj a i edges collision)).
Proof.
  induction edges as [|e edges IH]; intros i collision; simpl; [constructor|].
  destruct collision; [constructor|].
  destruct (edge_hit game_obj e).
  - repeat constructor.
  - specialize (IH (S i) false).
    destruct (edge_loop _ _ _ _ _) as [c l]. simpl in *. constructor; auto.
Qed.

Lemma wall_check_probes (game_obj another_obj : GameObject) (a : ref) (collision : bool) :
  Forall (fun p => probe_target p = a /\ is_robot_probe p = false)
         (snd (wall_check game_obj another_obj a collision)).
Proof.
  unfold wall_check.
  pose proof (vertex_loop_probes game_obj another_obj a (vertex another_obj)
                                 0 collision []) as Hv.
  destruct (vertex_loop _ _ _ _ _ _ _) as [[c1 coords] l1]. simpl in Hv.
  pose proof (edge_loop_probes game_obj a
                (edges_loop coords (seq 0 (length coords)) c1 []) 0 c1) as He.
  destruct (edge_loop _ _ _ _ _) as [c2 l2]. simpl in *.
  apply Forall_app. auto.
Qed.

Lemma scan_probes_ok (st : Store) (g : ref) (others : list ref) :
  forall collision, Forall (probe_ok st g) (snd (scan st g others collision)).
Proof.
  induction others as [|a rest IH]; intros collision; simpl; [constructor|].
  destruct (is_robot_pair st g a) eqn:Hp.
  - apply is_robot_pair_true in Hp as [Hk Hn].
    assert (Hok : probe_ok st g (ProbeRobot a)) by (simpl; auto).
    destruct (robots_overlap (st g) (st a)); [repeat constructor; auto|].
    specialize (IH collision). destruct (scan st g rest collision). simpl in *.
    constructor; auto.
  - destruct (Kind_eqb (kind (st a)) Wall) eqn:Hk; [|apply IH].
    apply Kind_eqb_eq in Hk.
    pose proof (wall_check_probes (st g) (st a) a collision) as Hw.
    destruct (wall_check (st g) (st a) a collision) as [c1 l1].
    specialize (IH c1). destruct (scan st g rest c1). simpl in *.
    apply Forall_app. split; [|exact IH].
    eapply Forall_impl; [|exact Hw].
    intros q [Ht Hr]. destruct q; simpl in *; try discriminate; now subst.
Qed.

(** Objects that are neither a robot other than [g] nor a wall are
    passed over. *)
Lemma scan_filter (st : Store) (g : ref) (keep : ref -> bool) (others : list ref) :
  (forall a, keep a = false -> is_robot_pair st g a = false /\ kind (st a) <> Wall) ->
  forall collision,
    scan st g (filter keep others) collision = scan st g others collision.
Proof.
  intros Hkeep. induction others as [|a rest IH]; intros collision; simpl; [reflexivity|].
  destruct (keep a) eqn:Ha; simpl.
  - destruct (is_robot_pair st g a).
    + destruct (robots_overlap (st g) (st a)); [reflexivity|]. now rewrite IH.
    + destruct (Kind_eqb (kind (st a)) Wall); [|apply IH].
      destruct (wall_check (st g) (st a) a collision) as [c1 l1]. now rewrite IH.
  - destruct (Hkeep a Ha) as [Hp Hw]. rewrite Hp.
    apply Kind_eqb_neq in Hw. rewrite Hw. apply IH.
Qed.

(** The check reads the robot under test, the other robots and the
    walls, and nothing else. *)
Lemma scan_agree (st st' : Store) (g : ref) (others : list ref) :
  st' g = st g ->
  (forall a, st' a = st a \/ (kind (st a) = Zone /\ kind (st' a) = Zone)) ->
  forall collision, scan st' g others collision = scan st g others collision.
Proof.
  intros Hg Hz. induction others as [|a rest IH]; intros collision; simpl; [reflexivity|].
  destruct (Hz a) as [Ha | [Hk Hk']].
  - unfold is_robot_pair. rewrite Ha, Hg.
    destruct (Kind_eqb (kind (st a)) Robot && negb (g =? a)%nat).
    + destruct (robots_overlap (st g) (st a)); [reflexivity|]. now rewrite IH.
    + destruct (Kind_eqb (kind (st a)) Wall); [|apply IH].
      destruct (wall_check (st g) (st a) a collision) as [c1 l1]. now rewrite IH.
  - unfold is_robot_pair. rewrite Hk, Hk'. simpl. apply IH.
Qed.

Lemma scan_nothing (st : Store) (g : ref) (others : list ref) :
  (forall a, In a others -> is_robot_pair st g a = false /\ kind (st a) <> Wall) ->
  forall collision, scan st g others collision = (collision, []).
Proof.
  induction others as [|a rest IH]; intros Hall collision; simpl; [reflexivity|].
  destruct (Hall a (or_introl eq_refl)) as [Hp Hw]. rewrite Hp.
  apply Kind_eqb_neq in Hw. rewrite Hw. apply IH.
  intros b Hb. apply Hall. now right.
Qed.

(** C6. Zones are pass-through: no predicate is ever evaluated against a
    zone; the outcome of the check and the predicates evaluated are the
    same as with the zones left out of the registered objects; and both
    are the same whatever the pose, the radius and the shape of the
    zones, so an overlap with a zone has no effect on the check, hence
    none on the rollback. *)
Theorem zones_pass_through (st st' : Store) (game_objects : list ref) (g : ref) :
  st' g = st g ->
  (forall a, st' a = st a \/ (kind (st a) = Zone /\ kind (st' a) = Zone)) ->
  Forall (fun p => kind (st (probe_target p)) <> Zone) (probes st game_objects g)
  /\ scan st g (filter (fun a => negb (is_zone st a)) game_objects) false
     = scan st g game_objects false
  /\ collision_check st' game_objects g = collision_check st game_objects g
  /\ probes st' game_objects g = probes st game_objects g.
Proof.
  intros Hg Hz. split; [|split; [|split]].
  - eapply Forall_impl; [|apply (scan_probes_ok st g game_objects false)].
    intros [a|a i|a i]; simpl; [intros [H _] | intros H | intros H]; congruence.
  - apply scan_filter. intros a Ha. apply negb_false_iff in Ha.
    apply Kind_eqb_eq in Ha. unfold is_robot_pair. rewrite Ha. simpl.
    split; [reflexivity | discriminate].
  - unfold collision_check. now rewrite (scan_agree st st' g game_objects Hg Hz).
  - unfold probes. now rewrite (scan_agree st st' g game_objects Hg Hz).
Qed.

Section UpdateProperties.

Variable obj_update : GameObject -> R -> GameObject.

(** The turn of an object changes no other object. *)
Lemma update_object_other (game_objects : list ref) (t_interval : R)
    (st : Store) (g r : ref) :
  r <> g -> update_object obj_update game_objects t_interval st g r = st r.
Proof.
  intros Hr. unfold update_object.
  destruct (Kind_eqb _ _); [destruct (collision_check _ _ _)|];
    now rewrite ?(set_other _ g r _ Hr).
Qed.

Lemma fold_update_object_other (game_objects : list ref) (t_interval : R)
    (turns : list ref) (r : ref) :
  ~ In r turns ->
  forall st,
    fold_left (update_object obj_update game_objects t_interval) turns st r = st r.
Proof.
  induction turns as [|g turns IH]; intros Hr st; simpl; [reflexivity|].
  rewrite IH by (intros H; apply Hr; now right).
  apply update_object_other. intros ->. apply Hr. now left.
Qed.







End UpdateProperties.

(** C10. A robot never collides with itself: no predicate is evaluated
    against the robot under test, the robot-robot predicate is evaluated
    against other robots only, and the registrations of the robot itself
    can be left out without changing the check; a robot whose only
    companions are zones never collides, and its turn keeps the pose its
    motion update gave it. *)
Theorem no_self_collision (obj_update : GameObject -> R -> GameObject)
    (st : Store) (game_objects : list ref) (g : ref) (t_interval : R) :
  kind (st g) = Robot ->
  Forall (fun p => probe_target p <> g /\ probe_ok st g p) (probes st game_objects g)
  /\ scan st g (filter (fun a => negb (Nat.eqb a g)) game_objects) false
     = scan st g game_objects false
  /\ (Forall (fun a => a = g \/ kind (st a) = Zone) game_objects ->
      collision_check st game_objects g = false
      /\ update_object obj_update game_objects t_interval st g
         = set st g (obj_update (st g) t_interval)).
Proof.
  intros Hk. split; [|split].
  - eapply Forall_impl; [|apply (scan_probes_ok st g game_objects false)].
    intros [a|a i|a i]; simpl; intros H; split; auto; try tauto; congruence.
  - apply scan_filter. intros a Ha. apply negb_false_iff, Nat.eqb_eq in Ha. subst a.
    unfold is_robot_pair. rewrite Nat.eqb_refl, andb_false_r.
    split; [reflexivity | congruence].
  - intros Hall. rewrite Forall_forall in Hall. split.
    + unfold collision_check. rewrite scan_nothing; [reflexivity|].
      intros a Ha. unfold is_robot_pair. destruct (Hall a Ha) as [-> | Hz].
      * rewrite Nat.eqb_refl, andb_false_r. split; [reflexivity | congruence].
      * rewrite Hz. simpl. split; [reflexivity | discriminate].
    + unfold update_object.
      destruct (Kind_eqb (kind (set st g (obj_update (st g) t_interval) g)) Robot)
        eqn:Hk1; [|reflexivity].
      apply Kind_eqb_eq in Hk1.
      unfold collision_check. rewrite scan_nothing; [reflexivity|].
      intros a Ha. unfold is_robot_pair. destruct (Hall a Ha) as [-> | Hz].
      * rewrite Nat.eqb_refl, andb_false_r. split; [reflexivity | congruence].
      * assert (Hne : a <> g) by (intros ->; congruence).
        rewrite (set_other _ _ _ _ Hne), Hz. simpl. split; [reflexivity | discriminate].
Qed.

(** ** Lines that do not meet *)

Lemma find_intersection_none (l m : Line2D.t) :
  Line2D.find_intersection l m = None <-> Line2D.cross l m = 0.
Proof.
  unfold Line2D.find_intersection.
  destruct (Req_dec_T (Line2D.cross l m) 0); split; intros; congruence.
Qed.


(** The perpendicular to an edge and the line of the edge are parallel
    only when the two ends of the edge coincide. *)
Lemma perpendicular_cross (edge : LineSegment2D.t) (c : Point2D.t) :
  Line2D.cross (LineSegment2D.find_perpendicular edge c) (LineSegment2D.line edge)
  = - (Line2D.dx (LineSegment2D.line edge) * Line2D.dx (LineSegment2D.line edge)
       + Line2D.dy (LineSegment2D.line edge) * Line2D.dy (LineSegment2D.line edge)).
Proof.
  destruct edge as [[x1 y1] [x2 y2]], c as [cx cy].
  unfold Line2D.cross, LineSegment2D.find_perpendicular, LineSegment2D.line,
    Line2D.dx, Line2D.dy. simpl. ring.
Qed.

Lemma perpendicular_parallel_iff (edge : LineSegment2D.t) (c : Point2D.t) :
  Line2D.cross (LineSegment2D.find_perpendicular edge c) (LineSegment2D.line edge) = 0
  <-> LineSegment2D.point1 edge = LineSegment2D.point2 edge.
Proof.
  rewrite perpendicular_cross. unfold Line2D.dx, Line2D.dy. simpl.
  destruct edge as [[x1 y1] [x2 y2]]. simpl. split.
  - intros H. destruct (Rplus_sqr_eq_0 (x2 - x1) (y2 - y1)) as [Hx Hy].
    + unfold Rsqr. lra.
    + f_equal; f_equal; lra.
  - intros H. injection H as -> ->. ring.
Qed.




(** ** Registration *)


(** ** One step of the scan *)

Lemma scan_robot_hit (st : Store) (g a : ref) (rest : list ref) (collision : bool) :
  is_robot_pair st g a = true -> robots_overlap (st g) (st a) = true ->
  scan st g (a :: rest) collision = (true, [ProbeRobot a]).
Proof. intros Hp Ho. simpl. now rewrite Hp, Ho. Qed.

Lemma scan_robot_miss (st : Store) (g a : ref) (rest : list ref) (collision : bool) :
  is_robot_pair st g a = true -> robots_overlap (st g) (st a) = false ->
  scan st g (a :: rest) collision
  = (fst (scan st g rest collision), ProbeRobot a :: snd (scan st g rest collision)).
Proof.
  intros Hp Ho. simpl. rewrite Hp, Ho. now destruct (scan st g rest collision).
Qed.

Lemma scan_wall (st : Store) (g a : ref) (rest : list ref) (collision : bool) :
  kind (st a) = Wall ->
  scan st g (a :: rest) collision
  = (fst (scan st g rest (fst (wall_check (st g) (st a) a collision))),
     snd (wall_check (st g) (st a) a collision)
     ++ snd (scan st g rest (fst (wall_check (st g) (st a) a collision)))).
Proof.
  intros Hk. simpl. unfold is_robot_pair. rewrite Hk. simpl.
  destruct (wall_check (st g) (st a) a collision) as [c1 l1]. simpl.
  now destruct (scan st g rest c1).
Qed.

Lemma scan_skip (st : Store) (g a : ref) (rest : list ref) (collision : bool) :
  is_robot_pair st g a = false -> kind (st a) <> Wall ->
  scan st g (a :: rest) collision = scan st g rest collision.
Proof.
  intros Hp Hk. simpl. rewrite Hp. apply Kind_eqb_neq in Hk. now rewrite Hk.
Qed.

(** ** The examples, evaluated *)

Lemma sqrt_lt_bound (e r : R) : 0 < r -> e < r * r -> sqrt e < r.
Proof.
  intros Hr He. destruct (Rle_lt_dec e 0) as [Hneg | Hpos].
  - rewrite sqrt_neg_0 by exact Hneg. exact Hr.
  - rewrite <- (sqrt_square r) by lra. apply sqrt_lt_1; nra.
Qed.

Lemma sqrt_ge_bound (e r : R) : 0 <= r -> r * r <= e -> r <= sqrt e.
Proof.
  intros Hr He. rewrite <- (sqrt_square r) at 1 by exact Hr.
  apply sqrt_le_1; nra.
Qed.

Lemma robots_overlap_false (game_obj another_obj : GameObject) :
  robots_overlap game_obj another_obj = false <->
  radius game_obj + radius another_obj
  <= Vector2D.find_distance (Pose2D.position (pose game_obj))
                            (Pose2D.position (pose another_obj)).
Proof. apply Rltb_false_iff. Qed.

(** The example of the specification: B at (15,0) collides with A. *)
Lemma duel_15_overlap : robots_overlap (duel_15 1%nat) (duel_15 0%nat) = true.
Proof.
  apply robots_overlap_true. simpl. rewrite find_distance_level.
  unfold Rabs. destruct (Rcase_abs (15 - 0)); lra.
Qed.

Lemma duel_15_collides : collision_check duel_15 [0%nat; 1%nat] 1%nat = true.
Proof.
  unfold collision_check.
  rewrite scan_robot_hit; [reflexivity | reflexivity | exact duel_15_overlap].
Qed.

(** The example of the specification: B at (16,0) touches A and does not
    collide. *)
Lemma duel_16_tangent : robots_overlap (duel_16 1%nat) (duel_16 0%nat) = false.
Proof.
  apply robots_overlap_false. simpl. rewrite find_distance_level.
  unfold Rabs. destruct (Rcase_abs (16 - 0)); lra.
Qed.

Lemma duel_16_no_collision : collision_check duel_16 [0%nat; 1%nat] 1%nat = false.
Proof.
  unfold collision_check.
  rewrite scan_robot_miss; [|reflexivity | exact duel_16_tangent].
  rewrite scan_skip; [reflexivity | reflexivity | discriminate].
Qed.

Lemma circle_circle_strict_witness :
  (1 <> 0)%nat /\ kind (duel_15 1%nat) = Robot /\ kind (duel_15 0%nat) = Robot
  /\ (collision_check duel_15 [0%nat] 1%nat = true <->
      sqrt ((15 - 0) * (15 - 0) + (0 - 0) * (0 - 0)) < 6 + 10).
Proof.
  assert (H1 : (1 <> 0)%nat) by discriminate.
  assert (H2 : kind (duel_15 1%nat) = Robot) by reflexivity.
  assert (H3 : kind (duel_15 0%nat) = Robot) by reflexivity.
  repeat split; auto;
    destruct (circle_circle_strict duel_15 1%nat 0%nat H1 H2 H3) as [[Hto Hfrom] _];
    [exact Hto | exact Hfrom].
Defined.

(** B marches from (16,0) to (15,0), into A. *)
Lemma duel_16_approach :
  collision_check (set duel_16 1%nat (march_left (duel_16 1%nat) 1))
                  [1%nat; 0%nat] 1%nat = true.
Proof.
  unfold collision_check.
  rewrite scan_skip; [|reflexivity | discriminate].
  rewrite scan_robot_hit; [reflexivity | reflexivity |].
  apply robots_overlap_true. simpl. rewrite find_distance_level.
  unfold Rabs. destruct (Rcase_abs (16 - 1 - 0)); lra.
Qed.


(** The first corner of the square wall is at the origin of the world,
    where the first robot of the corner arena stands. *)
Lemma corner_arena_first_corner :
  world_vertex (corner_arena 1%nat) (Vector2D.mk (- (1)) (- (1))) = Vector2D.mk 0 0.
Proof.
  unfold world_vertex, Vector2D.add, Vector2D.rotate. simpl.
  rewrite cos_0, sin_0. f_equal; ring.
Qed.

Lemma corner_arena_corner_hit :
  corner_hit (corner_arena 0%nat)
             (world_vertex (corner_arena 1%nat) (Vector2D.mk (- (1)) (- (1)))) = true.
Proof.
  rewrite corner_arena_first_corner. apply Rltb_true_iff.
  simpl. rewrite find_distance_self. lra.
Qed.

Lemma corner_arena_robots_apart :
  robots_overlap (corner_arena 0%nat) (corner_arena 2%nat) = false.
Proof.
  apply robots_overlap_false. simpl. rewrite find_distance_level.
  unfold Rabs. destruct (Rcase_abs (0 - 5)); lra.
Qed.

(** In the corner arena the corner of the wall is hit, and the robot
    registered after the wall is still tested. *)
Lemma corner_arena_scan :
  scan corner_arena 0%nat [0%nat; 1%nat; 2%nat] false
  = (true, [ProbeVertex 1%nat 0%nat; ProbeRobot 2%nat]).
Proof.
  rewrite scan_skip; [|reflexivity | discriminate].
  rewrite scan_wall by reflexivity.
  rewrite (wall_check_corner (corner_arena 0%nat) (corner_arena 1%nat) 1%nat
             [] (Vector2D.mk (- (1)) (- (1)))
             [Vector2D.mk 1 (- (1)); Vector2D.mk 1 1; Vector2D.mk (- (1)) 1]);
    [|reflexivity | constructor | exact corner_arena_corner_hit].
  cbn [fst snd length seq map app].
  rewrite scan_robot_miss; [reflexivity | reflexivity | exact corner_arena_robots_apart].
Qed.

Lemma wall_corner_collides_witness :
  In 1%nat [0%nat; 1%nat; 2%nat; 3%nat]
  /\ kind (corner_arena 1%nat) = Wall
  /\ In (Vector2D.mk (- (1)) (- (1))) (vertex (corner_arena 1%nat))
  /\ collision_check corner_arena [0%nat; 1%nat; 2%nat; 3%nat] 0%nat = true.
Proof.
  assert (H1 : In 1%nat [0%nat; 1%nat; 2%nat; 3%nat]) by (right; left; reflexivity).
  assert (H2 : kind (corner_arena 1%nat) = Wall) by reflexivity.
  assert (H3 : In (Vector2D.mk (- (1)) (- (1))) (vertex (corner_arena 1%nat)))
    by (left; reflexivity).
  repeat split; auto.
  destruct (wall_corner_collides corner_arena [0%nat; 1%nat; 2%nat; 3%nat]
              0%nat 1%nat (Vector2D.mk (- (1)) (- (1))) H1 H2 H3) as [_ [_ Hon]].
  apply Hon.
  - now rewrite corner_arena_first_corner.
  - simpl. lra.
Defined.



Lemma zones_pass_through_witness :
  corner_arena_zone_moved 0%nat = corner_arena 0%nat
  /\ (forall a, corner_arena_zone_moved a = corner_arena a
                \/ (kind (corner_arena a) = Zone
                    /\ kind (corner_arena_zone_moved a) = Zone))
  /\ collision_check corner_arena_zone_moved [0%nat; 1%nat; 2%nat; 3%nat] 0%nat
     = collision_check corner_arena [0%nat; 1%nat; 2%nat; 3%nat] 0%nat.
Proof.
  assert (H1 : corner_arena_zone_moved 0%nat = corner_arena 0%nat) by reflexivity.
  assert (H2 : forall a, corner_arena_zone_moved a = corner_arena a
                         \/ (kind (corner_arena a) = Zone
                             /\ kind (corner_arena_zone_moved a) = Zone)).
  { intros a. destruct (Nat.eq_dec a 3) as [-> | Ha].
    - right. split; reflexivity.
    - left. unfold corner_arena_zone_moved. now apply set_other. }
  destruct (zones_pass_through corner_arena corner_arena_zone_moved
              [0%nat; 1%nat; 2%nat; 3%nat] 0%nat H1 H2) as [_ [_ [Hc _]]].
  split; [exact H1|]. split; [exact H2 | exact Hc].
Defined.






Lemma no_self_collision_witness :
  kind (lone_robot_arena 1%nat) = Robot
  /\ collision_check lone_robot_arena [0%nat; 1%nat; 2%nat] 1%nat = false
  /\ update_object march_left [0%nat; 1%nat; 2%nat] 1 lone_robot_arena 1%nat
     = set lone_robot_arena 1%nat (march_left (lone_robot_arena 1%nat) 1).
Proof.
  assert (H1 : kind (lone_robot_arena 1%nat) = Robot) by reflexivity.
  split; [exact H1|].
  destruct (no_self_collision march_left lone_robot_arena [0%nat; 1%nat; 2%nat]
              1%nat 1 H1) as [_ [_ Hlone]].
  apply Hlone. repeat constructor; (now left) || (now right).
Defined.

(** ** The edge test on the square wall *)

Lemma square_wall_coords :
  map (world_vertex square_wall) (vertex square_wall)
  = [Vector2D.mk 0 0; Vector2D.mk 2 0; Vector2D.mk 2 2; Vector2D.mk 0 2].
Proof.
  unfold world_vertex, Vector2D.add, Vector2D.rotate. simpl.
  rewrite cos_0, sin_0. repeat f_equal; ring.
Qed.

(** The robot below the bottom edge is out of reach of the four corners. *)
Lemma robot_below_edge_misses_corners :
  Forall (fun v => corner_hit robot_below_edge (world_vertex square_wall v) = false)
         (vertex square_wall).
Proof.
  repeat constructor; apply Rltb_false_iff; geometry; rewrite cos_0, sin_0;
    apply sqrt_ge_bound; lra.
Qed.

Lemma bottom_edge_length :
  sqrt ((2 - 0) * (2 - 0) + (0 - 0) * (0 - 0)) = 2.
Proof.
  replace ((2 - 0) * (2 - 0) + (0 - 0) * (0 - 0)) with (2 * 2) by ring.
  apply sqrt_square. lra.
Qed.

(** Its perpendicular foot (1,0) is on the bottom edge, at distance 1/2:
    the edge is hit. *)
Lemma robot_below_edge_foot :
  Line2D.find_intersection
    (LineSegment2D.find_perpendicular bottom_edge (center robot_below_edge))
    (LineSegment2D.line bottom_edge) = Some (Point2D.mk 1 0).
Proof.
  unfold Line2D.find_intersection. destruct (Req_dec_T _ 0) as [Hz | Hnz].
  - exfalso. geometry. lra.
  - geometry. f_equal. f_equal; field.
Qed.

Lemma robot_below_edge_hits : edge_hit robot_below_edge bottom_edge = true.
Proof.
  apply edge_hit_spec. exists (Point2D.mk 1 0).
  split; [exact robot_below_edge_foot|]. split.
  - geometry. rewrite (Rmax_right 0 2), (Rmin_left 0 2), (Rmax_left 0 0), (Rmin_left 0 0)
      by lra.
    repeat split; left; lra.
  - geometry. rewrite bottom_edge_length.
    replace ((2 - 0) * (- (1 / 2) - 0) - (0 - 0) * (1 - 0)) with (- (1)) by field.
    rewrite Rabs_Ropp, Rabs_R1. lra.
Qed.

(** The robot beside the edge is within its radius of the line of the
    bottom edge, but its perpendicular foot (5,0) is off the edge: the
    edge is not hit. *)
Lemma robot_beside_edge_foot :
  Line2D.find_intersection
    (LineSegment2D.find_perpendicular bottom_edge (center robot_beside_edge))
    (LineSegment2D.line bottom_edge) = Some (Point2D.mk 5 0).
Proof.
  unfold Line2D.find_intersection. destruct (Req_dec_T _ 0) as [Hz | Hnz].
  - exfalso. geometry. lra.
  - geometry. f_equal. f_equal; field.
Qed.

Lemma robot_beside_edge_near_line :
  LineSegment2D.find_distance bottom_edge (center robot_beside_edge)
  < radius robot_beside_edge.
Proof.
  geometry. rewrite bottom_edge_length.
  replace ((2 - 0) * (- (1 / 2) - 0) - (0 - 0) * (5 - 0)) with (- (1)) by field.
  rewrite Rabs_Ropp, Rabs_R1. lra.
Qed.

Lemma robot_beside_edge_outside :
  ~ spec_within_bounding_box bottom_edge (Point2D.mk 5 0).
Proof.
  geometry. rewrite (Rmax_right 0 2) by lra. intros [[H | H] _]; [lra|].
  rewrite (Rabs_right (5 - 2)), (Rabs_right 5), (Rabs_right 2) in H by lra.
  rewrite (Rmax_left 5 2) in H by lra. lra.
Qed.

Lemma robot_beside_edge_misses : edge_hit robot_beside_edge bottom_edge = false.
Proof.
  destruct (edge_hit robot_beside_edge bottom_edge) eqn:He; [|reflexivity].
  apply edge_hit_spec in He as [point [Hfoot [Hin _]]].
  rewrite robot_beside_edge_foot in Hfoot. injection Hfoot as <-.
  now apply robot_beside_edge_outside in Hin.
Qed.

(** The tolerance: a coordinate one ten-thousandth beyond a bound counts
    as inside, twice as far does not. *)
Lemma tolerance_example :
  spec_within_tolerance 10001 10000 /\ ~ spec_within_tolerance 10002 10000.
Proof.
  unfold spec_within_tolerance. split.
  - rewrite (Rabs_right (10001 - 10000)), (Rabs_right 10001), (Rabs_right 10000) by lra.
    rewrite (Rmax_left 10001 10000) by lra. lra.
  - rewrite (Rabs_right (10002 - 10000)), (Rabs_right 10002), (Rabs_right 10000) by lra.
    rewrite (Rmax_left 10002 10000) by lra. lra.
Qed.

Lemma wall_edge_test_witness :
  Forall (fun v => corner_hit robot_below_edge (world_vertex square_wall v) = false)
         (vertex square_wall)
  /\ fst (wall_check robot_below_edge square_wall 1%nat false) = true.
Proof.
  split; [exact robot_below_edge_misses_corners|].
  destruct (wall_edge_test robot_below_edge square_wall 1%nat
              robot_below_edge_misses_corners) as [[_ Hhit] _].
  apply Hhit. exists 0%nat. split.
  - rewrite square_wall_coords. simpl. lia.
  - rewrite square_wall_coords. exact robot_below_edge_hits.
Defined.

(** * Further properties of the collision check *)

Lemma wall_check_or (game_obj another_obj : GameObject) (a : ref) (collision : bool) :
  fst (wall_check game_obj another_obj a collision)
  = collision || fst (wall_check game_obj another_obj a false).
Proof. destruct collision; [now rewrite wall_check_flag | reflexivity]. Qed.

Lemma scan_existsb (st : Store) (g : ref) (others : list ref) :
  forall collision,
    fst (scan st g others collision) = collision || existsb (hits st g) others.
Proof.
  induction others as [|a rest IH]; intros collision; simpl.
  - now rewrite orb_false_r.
  - unfold hits. destruct (is_robot_pair st g a).
    + destruct (robots_overlap (st g) (st a)); simpl.
      * now rewrite orb_true_r.
      * specialize (IH collision). now destruct (scan st g rest collision).
    + destruct (Kind_eqb (kind (st a)) Wall).
      * pose proof (wall_check_or (st g) (st a) a collision) as Hw.
        destruct (wall_check (st g) (st a) a collision) as [c1 l1].
        specialize (IH c1). destruct (scan st g rest c1) as [c2 l2].
        simpl in *. rewrite IH, Hw. now rewrite orb_assoc.
      * simpl. apply IH.
Qed.

Lemma wall_check_iff (game_obj another_obj : GameObject) (a : ref) :
  let coords := map (world_vertex another_obj) (vertex another_obj) in
  fst (wall_check game_obj another_obj a false) = true <->
  (exists v, In v (vertex another_obj)
             /\ corner_hit game_obj (world_vertex another_obj v) = true)
  \/ (exists i, (i < length coords)%nat /\ edge_hit game_obj (edge_at coords i) = true).
Proof.
  intros coords.
  destruct (first_true (fun v => corner_hit game_obj (world_vertex another_obj v))
                       (vertex another_obj))
    as [Hall | [vs1 [v [vs2 [Hvs [Hvs1 Hv]]]]]].
  - rewrite (wall_check_no_corner _ _ a Hall). cbn [fst]. fold coords.
    rewrite edge_loop_exists. split.
    + intros [e [Hin He]]. right.
      apply in_map_iff in Hin as [i [<- Hi]]. apply in_seq in Hi.
      exists i. split; [lia | exact He].
    + intros [[v [Hin Hv]] | [i [Hi He]]].
      * rewrite Forall_forall in Hall. rewrite (Hall v Hin) in Hv. discriminate.
      * exists (edge_at coords i). split; [|exact He].
        apply in_map. apply in_seq. lia.
  - rewrite (wall_check_corner _ _ a _ _ _ Hvs Hvs1 Hv). cbn [fst].
    split; [|reflexivity]. intros _. left. exists v. split; [|exact Hv].
    rewrite Hvs. apply in_or_app. right. now left.
Qed.

(** X1. The outcome of the check does not depend on the order in which
    the predicates are evaluated: the check of robot [g] is positive iff
    some registered object, taken alone, is hit: another robot strictly
    closer than the sum of the radii, or a wall one of whose world-frame
    corners is strictly closer than the radius or one of whose edges is
    hit. *)
Theorem collision_check_exists (st : Store) (game_objects : list ref) (g : ref) :
  collision_check st game_objects g = existsb (hits st g) game_objects
  /\ (collision_check st game_objects g = true <->
      exists a, In a game_objects /\
        ((kind (st a) = Robot /\ a <> g /\
          Vector2D.find_distance (Pose2D.position (pose (st g)))
                                 (Pose2D.position (pose (st a)))
          < radius (st g) + radius (st a))
         \/ (kind (st a) = Wall /\
             let coords := map (world_vertex (st a)) (vertex (st a)) in
             ((exists v, In v coords /\
                 Vector2D.find_distance v (Pose2D.position (pose (st g)))
                 < radius (st g))
              \/ (exists i, (i < length coords)%nat
                            /\ edge_hit (st g) (edge_at coords i) = true))))).
Proof.
  assert (Hb : collision_check st game_objects g = existsb (hits st g) game_objects)
    by (unfold collision_check; now rewrite scan_existsb).
  split; [exact Hb|]. rewrite Hb, existsb_exists.
  assert (Hcorner : forall a,
             (exists v, In v (vertex (st a))
                        /\ corner_hit (st g) (world_vertex (st a) v) = true)
             <-> (exists v, In v (map (world_vertex (st a)) (vertex (st a)))
                            /\ Vector2D.find_distance v (Pose2D.position (pose (st g)))
                               < radius (st g))).
  { intros a. split.
    - intros [v [Hin Hv]]. exists (world_vertex (st a) v).
      split; [now apply in_map | now apply Rltb_true_iff].
    - intros [w [Hin Hw]]. apply in_map_iff in Hin as [v [<- Hin]].
      exists v. split; [exact Hin | now apply Rltb_true_iff]. }
  split.
  - intros [a [Hin Hhit]]. exists a. split; [exact Hin|].
    unfold hits in Hhit. destruct (is_robot_pair st g a) eqn:Hp.
    + apply is_robot_pair_true in Hp as [Hk Hne]. left.
      repeat split; auto. now apply robots_overlap_true.
    + destruct (Kind_eqb (kind (st a)) Wall) eqn:Hk; [|discriminate].
      apply Kind_eqb_eq in Hk. right. split; [exact Hk|].
      apply wall_check_iff in Hhit. cbv zeta. rewrite <- Hcorner. exact Hhit.
  - intros [a [Hin [[Hk [Hne Hd]] | [Hk Hw]]]]; exists a; split; auto; unfold hits.
    + assert (Hp : is_robot_pair st g a = true) by (apply is_robot_pair_true; auto).
      rewrite Hp. now apply robots_overlap_true.
    + assert (Hp : is_robot_pair st g a = false)
        by (unfold is_robot_pair; now rewrite Hk).
      rewrite Hp, Hk. simpl. apply wall_check_iff.
      cbv zeta in Hw. rewrite <- Hcorner in Hw. exact Hw.
Qed.

(** X2. Registration order and repeated registrations do not change the
    outcome of a check: two lists of registered objects with the same
    members give the same result for every robot. *)
Theorem collision_check_same_members (st : Store) (l l' : list ref) (g : ref) :
  (forall a, In a l <-> In a l') ->
  collision_check st l g = collision_check st l' g.
Proof.
  intros Hsame. unfold collision_check. rewrite !scan_existsb. simpl.
  destruct (existsb (hits st g) l) eqn:Hl; symmetry.
  - apply existsb_exists in Hl as [a [Hin Hhit]].
    apply existsb_exists. exists a. split; [now apply Hsame | exact Hhit].
  - destruct (existsb (hits st g) l') eqn:Hl'; [|reflexivity].
    apply existsb_exists in Hl' as [a [Hin Hhit]].
    assert (Habs : existsb (hits st g) l = true)
      by (apply existsb_exists; exists a; split; [now apply Hsame | exact Hhit]).
    congruence.
Qed.

Lemma collision_check_same_members_witness :
  (forall a, In a [0%nat; 1%nat; 2%nat] <-> In a [2%nat; 1%nat; 1%nat; 0%nat])
  /\ collision_check corner_arena [2%nat; 1%nat; 1%nat; 0%nat] 0%nat = true.
Proof.
  assert (H : forall a, In a [0%nat; 1%nat; 2%nat] <-> In a [2%nat; 1%nat; 1%nat; 0%nat])
    by (intros a; simpl; tauto).
  split; [exact H|].
  rewrite <- (collision_check_same_members corner_arena _ _ 0%nat H).
  unfold collision_check. now rewrite corner_arena_scan.
Defined.

(** ** The cost of a check *)

Lemma vertex_loop_cost (game_obj another_obj : GameObject) (a : ref)
    (vs : list Vector2D.t) :
  forall i collision coords,
    let '(_, cs, l) := vertex_loop game_obj another_obj a i vs collision coords in
    (length l <= length vs)%nat /\ (length cs <= length coords + length vs)%nat.
Proof.
  induction vs as [|v vs IH]; intros i collision coords; simpl.
  - split; lia.
  - destruct collision; [simpl; split; lia|].
    destruct (corner_hit game_obj (world_vertex another_obj v)); [simpl; split; lia|].
    specialize (IH (S i) false (coords ++ [world_vertex another_obj v])).
    destruct (vertex_loop _ _ _ _ _ _ _) as [[c cs] l].
    rewrite length_app in IH. simpl in *. lia.
Qed.

Lemma edges_loop_cost (coords : list Vector2D.t) (range : list nat) (collision : bool) :
  forall edges,
    (length (edges_loop coords range collision edges) <= length edges + length range)%nat.
Proof.
  induction range as [|i range IH]; intros edges; simpl; [lia|].
  destruct collision; [lia|].
  specialize (IH (edges ++ [edge_at coords i])). rewrite length_app in IH.
  simpl in IH. lia.
Qed.

Lemma edge_loop_cost (game_obj : GameObject) (a : ref) (edges : list LineSegment2D.t) :
  forall i collision,
    (length (snd (edge_loop game_obj a i edges collision)) <= length edges)%nat.
Proof.
  induction edges as [|e edges IH]; intros i collision; simpl; [lia|].
  destruct collision; [simpl; lia|].
  destruct (edge_hit game_obj e); [simpl; lia|].
  specialize (IH (S i) false). destruct (edge_loop _ _ _ _ _). simpl in *. lia.
Qed.

Lemma wall_check_cost (game_obj another_obj : GameObject) (a : ref) (collision : bool) :
  (length (snd (wall_check game_obj another_obj a collision))
   <= 2 * length (vertex another_obj))%nat.
Proof.
  unfold wall_check.
  pose proof (vertex_loop_cost game_obj another_obj a (vertex another_obj)
                               0 collision []) as Hv.
  destruct (vertex_loop _ _ _ _ _ _ _) as [[c1 coords] l1]. simpl in Hv.
  pose proof (edges_loop_cost coords (seq 0 (length coords)) c1 []) as Hes.
  pose proof (edge_loop_cost game_obj a
                (edges_loop coords (seq 0 (length coords)) c1 []) 0 c1) as He.
  destruct (edge_loop _ _ _ _ _) as [c2 l2].
  rewrite length_seq in Hes. simpl in *. rewrite length_app. lia.
Qed.

Lemma probes_total_cost (st : Store) (game_objects : list ref) (g : ref) :
  (length (probes st game_objects g) <= probe_budget st game_objects)%nat.
Proof.
  unfold probes, probe_budget.
  generalize false as collision.
  induction game_objects as [|a rest IH]; intros collision; simpl; [lia|].
  unfold probe_cost at 1.
  destruct (is_robot_pair st g a) eqn:Hp.
  - apply is_robot_pair_true in Hp as [Hk _]. rewrite Hk.
    destruct (robots_overlap (st g) (st a)); simpl; [lia|].
    specialize (IH collision). destruct (scan st g rest collision). simpl in *. lia.
  - destruct (Kind_eqb (kind (st a)) Wall) eqn:Hk.
    + apply Kind_eqb_eq in Hk. rewrite Hk.
      pose proof (wall_check_cost (st g) (st a) a collision) as Hw.
      destruct (wall_check (st g) (st a) a collision) as [c1 l1].
      specialize (IH c1). destruct (scan st g rest c1). simpl in *.
      rewrite length_app. lia.
    + specialize (IH collision). lia.
Qed.

Lemma NoDup_map_injective {A B : Type} (f : A -> B) (l : list A) :
  (forall x y, f x = f y -> x = y) -> NoDup l -> NoDup (map f l).
Proof.
  intros Hinj. induction 1 as [|x l Hx Hl IH]; simpl; constructor; [|exact IH].
  intros Hin. apply in_map_iff in Hin as [y [Hy Hin]]. apply Hinj in Hy. now subst.
Qed.

Lemma own_probes_count (st : Store) (a : ref) (la : list Probe) (p : Probe) :
  own_probes st a la ->
  (count_occ Probe_eq_dec la p <= if Nat.eq_dec a (probe_target p) then 1 else 0)%nat.
Proof.
  intros [-> | [k [m [_ [_ ->]]]]].
  - cbn [count_occ]. destruct (Probe_eq_dec (ProbeRobot a) p) as [<- | Hne].
    + cbn [probe_target]. destruct (Nat.eq_dec a a); [lia | contradiction].
    + destruct (Nat.eq_dec a (probe_target p)); lia.
  - set (la := map (ProbeVertex a) (seq 0 k) ++ map (ProbeEdge a) (seq 0 m)).
    assert (Htarget : forall q, In q la -> probe_target q = a).
    { intros q Hq. apply in_app_or in Hq as [Hq | Hq];
        apply in_map_iff in Hq as [n [<- _]]; reflexivity. }
    assert (Hnodup : NoDup la).
    { apply NoDup_app.
      - apply NoDup_map_injective; [congruence | apply seq_NoDup].
      - apply NoDup_map_injective; [congruence | apply seq_NoDup].
      - intros q Hv He. apply in_map_iff in Hv as [n [<- _]].
        apply in_map_iff in He as [n' [Habs _]]. discriminate. }
    destruct (Nat.eq_dec a (probe_target p)) as [Ha | Ha].
    + now apply NoDup_count_occ.
    + assert (Hnot : ~ In p la) by (intros Hin; apply Ha; symmetry; now apply Htarget).
      apply (count_occ_not_In Probe_eq_dec) in Hnot. lia.
Qed.

Lemma in_registration_order_count (st : Store) (others : list ref) (l : list Probe) :
  in_registration_order st others l ->
  forall p,
    (count_occ Probe_eq_dec l p <= count_occ Nat.eq_dec others (probe_target p))%nat.
Proof.
  induction 1 as [|a rest la l Hown Hrest IH]; intros p; [simpl; lia|].
  rewrite count_occ_app. pose proof (own_probes_count st a la p Hown) as Ha.
  specialize (IH p). simpl. destruct (Nat.eq_dec a (probe_target p)); lia.
Qed.

Lemma in_registration_order_index (st : Store) (others : list ref) (l : list Probe) :
  in_registration_order st others l ->
  Forall (fun p => match p with
                   | ProbeRobot _ => True
                   | ProbeVertex a i | ProbeEdge a i =>
                       (i < length (vertex (st a)))%nat
                   end) l.
Proof.
  induction 1 as [|a rest la l Hown Hrest IH]; [constructor|].
  apply Forall_app. split; [|exact IH].
  destruct Hown as [-> | [k [m [Hk [Hm ->]]]]]; [repeat constructor|].
  apply Forall_app. split; apply Forall_forall; intros q Hq;
    apply in_map_iff in Hq as [n [<- Hn]]; apply in_seq in Hn; lia.
Qed.

(** X3. The cost of one check is bounded, object by object: a predicate
    (the distance to a robot, the test of a given corner or of a given
    edge of a wall) is evaluated at most once for each registration of
    the object it is made against; robot tests are made against robots
    only, corner and edge tests against walls only and with an index
    below the number of vertices of the wall; so that a check costs at
    most one distance per registered robot and one corner test and one
    edge test per vertex of each registered wall, and zones cost
    nothing. *)
Theorem probes_within_budget (st : Store) (game_objects : list ref) (g : ref) :
  (forall p,
      (count_occ Probe_eq_dec (probes st game_objects g) p
       <= count_occ Nat.eq_dec game_objects (probe_target p))%nat)
  /\ Forall (fun p => match p with
                      | ProbeRobot a => kind (st a) = Robot
                      | ProbeVertex a i | ProbeEdge a i =>
                          kind (st a) = Wall /\ (i < length (vertex (st a)))%nat
                      end) (probes st game_objects g)
  /\ (length (probes st game_objects g) <= probe_budget st game_objects)%nat.
Proof.
  pose proof (scan_in_registration_order st g game_objects false) as Horder.
  split; [|split].
  - exact (in_registration_order_count st game_objects _ Horder).
  - pose proof (in_registration_order_index st game_objects _ Horder) as Hindex.
    pose proof (scan_probes_ok st g game_objects false) as Hok.
    unfold probes. rewrite Forall_forall in *. intros p Hp.
    specialize (Hindex p Hp). specialize (Hok p Hp).
    destruct p as [a | a i | a i]; simpl in *; tauto.
  - apply probes_total_cost.
Qed.

(** ** Robots without extent *)

Lemma segment_distance_nonneg (edge : LineSegment2D.t) (c : Point2D.t) :
  0 <= LineSegment2D.find_distance edge c.
Proof.
  unfold LineSegment2D.find_distance, Rdiv.
  apply Rmult_le_pos; [apply Rabs_pos|].
  set (d := sqrt _). assert (Hd : 0 <= d) by apply sqrt_pos.
  destruct (Req_dec d 0) as [-> | Hnz].
  - rewrite Rinv_0. lra.
  - left. apply Rinv_0_lt_compat. lra.
Qed.

Lemma wall_check_no_extent (game_obj another_obj : GameObject) (a : ref) :
  radius game_obj <= 0 ->
  fst (wall_check game_obj another_obj a false) = false.
Proof.
  intros Hr.
  destruct (fst (wall_check game_obj another_obj a false)) eqn:Hw; [|reflexivity].
  apply wall_check_iff in Hw as [[v [_ Hv]] | [i [_ He]]].
  - apply Rltb_true_iff in Hv.
    pose proof (find_distance_nonneg (world_vertex another_obj v)
                                     (Pose2D.position (pose game_obj))). lra.
  - apply edge_hit_spec in He as [pt [_ [_ Hd]]].
    pose proof (segment_distance_nonneg
                  (edge_at (map (world_vertex another_obj) (vertex another_obj)) i)
                  (center game_obj)). lra.
Qed.

(** X4. A robot whose radius is zero or negative is never stopped by a
    wall, wherever it is: its check is positive iff another registered
    robot is strictly closer than the sum of the two radii. *)
Theorem no_extent_passes_walls (st : Store) (game_objects : list ref) (g : ref) :
  radius (st g) <= 0 ->
  (forall a, fst (wall_check (st g) (st a) a false) = false)
  /\ (collision_check st game_objects g = true <->
      exists b, In b game_objects /\ kind (st b) = Robot /\ b <> g /\
        Vector2D.find_distance (Pose2D.position (pose (st g)))
                               (Pose2D.position (pose (st b)))
        < radius (st g) + radius (st b)).
Proof.
  intros Hr. split; [intros a; now apply wall_check_no_extent|].
  unfold collision_check. rewrite scan_existsb. simpl. rewrite existsb_exists.
  split.
  - intros [b [Hin Hhit]]. exists b. split; [exact Hin|].
    unfold hits in Hhit. destruct (is_robot_pair st g b) eqn:Hp.
    + apply is_robot_pair_true in Hp as [Hk Hne].
      repeat split; auto. now apply robots_overlap_true.
    + rewrite wall_check_no_extent in Hhit by exact Hr.
      now destruct (Kind_eqb (kind (st b)) Wall).
  - intros [b [Hin [Hk [Hne Hd]]]]. exists b. split; [exact Hin|].
    unfold hits.
    assert (Hp : is_robot_pair st g b = true) by (apply is_robot_pair_true; auto).
    rewrite Hp. now apply robots_overlap_true.
Qed.

Lemma no_extent_passes_walls_witness :
  radius (point_robot_arena 0%nat) <= 0
  /\ fst (wall_check (point_robot_arena 0%nat) (point_robot_arena 1%nat) 1%nat false)
     = false.
Proof.
  assert (H : radius (point_robot_arena 0%nat) <= 0) by (simpl; lra).
  split; [exact H|].
  now destruct (no_extent_passes_walls point_robot_arena [0%nat; 1%nat; 2%nat] 0%nat H)
    as [Hw _].
Defined.

(** ** Symmetry *)

Lemma find_distance_sym (u v : Vector2D.t) :
  Vector2D.find_distance u v = Vector2D.find_distance v u.
Proof. unfold Vector2D.find_distance. f_equal. ring. Qed.

Lemma robots_overlap_sym (o1 o2 : GameObject) :
  robots_overlap o1 o2 = robots_overlap o2 o1.
Proof.
  unfold robots_overlap. now rewrite find_distance_sym, Rplus_comm.
Qed.

(** X5. Detection between robots is symmetric: in one and the same
    store, the check of robot [g] is positive because of robot [a] iff
    the check of [a] is positive because of [g]. *)
Theorem robots_detect_each_other (st : Store) (g a : ref) :
  kind (st g) = Robot -> kind (st a) = Robot ->
  hits st g a = hits st a g
  /\ collision_check st [a] g = collision_check st [g] a.
Proof.
  intros Hg Ha.
  assert (Hhits : hits st g a = hits st a g).
  { unfold hits, is_robot_pair. rewrite Hg, Ha, (Nat.eqb_sym a g). simpl.
    destruct (negb (g =? a)%nat); [apply robots_overlap_sym | reflexivity]. }
  split; [exact Hhits|].
  unfold collision_check. rewrite !scan_existsb. simpl. now rewrite Hhits.
Qed.

Lemma robots_detect_each_other_witness :
  kind (duel_15 1%nat) = Robot /\ kind (duel_15 0%nat) = Robot
  /\ collision_check duel_15 [1%nat] 0%nat = true.
Proof.
  assert (H1 : kind (duel_15 1%nat) = Robot) by reflexivity.
  assert (H0 : kind (duel_15 0%nat) = Robot) by reflexivity.
  destruct (robots_detect_each_other duel_15 1%nat 0%nat H1 H0) as [_ Hsym].
  split; [exact H1|]. split; [exact H0|].
  transitivity (collision_check duel_15 [0%nat] 1%nat); [symmetry; exact Hsym|].
  unfold collision_check.
  rewrite scan_robot_hit; [reflexivity | reflexivity | exact duel_15_overlap].
Defined.

(** ** The tolerance at a bound that is zero *)

Lemma isclose_zero (value : R) : isclose value 0 rel_tol_1e_4 = true <-> value = 0.
Proof.
  rewrite isclose_spec. unfold spec_within_tolerance.
  rewrite Rminus_0_r, Rabs_R0, (Rmax_left (Rabs value) 0) by apply Rabs_pos.
  pose proof (Rabs_pos value) as Hpos. split.
  - intros H. assert (Hz : Rabs value = 0) by lra.
    destruct (Req_dec value 0) as [Hv | Hv]; [exact Hv|].
    apply Rabs_no_R0 in Hv. contradiction.
  - intros ->. rewrite Rabs_R0. lra.
Qed.

(** X6. The tolerance of the bounding-box test is relative to the
    magnitudes compared, so it vanishes at a bound that is zero: a
    perpendicular foot beyond a bound of the box that is exactly 0 is
    rejected however close it is, and the edge is then not hit. *)
Theorem no_tolerance_at_zero (game_obj : GameObject) (edge : LineSegment2D.t)
    (point : Point2D.t) :
  Line2D.find_intersection
    (LineSegment2D.find_perpendicular edge (center game_obj))
    (LineSegment2D.line edge) = Some point ->
  (Rmax (Point2D.x (LineSegment2D.point1 edge)) (Point2D.x (LineSegment2D.point2 edge)) = 0
   /\ 0 < Point2D.x point)
  \/ (Rmin (Point2D.x (LineSegment2D.point1 edge)) (Point2D.x (LineSegment2D.point2 edge)) = 0
      /\ Point2D.x point < 0)
  \/ (Rmax (Point2D.y (LineSegment2D.point1 edge)) (Point2D.y (LineSegment2D.point2 edge)) = 0
      /\ 0 < Point2D.y point)
  \/ (Rmin (Point2D.y (LineSegment2D.point1 edge)) (Point2D.y (LineSegment2D.point2 edge)) = 0
      /\ Point2D.y point < 0) ->
  in_bounding_box edge point = false /\ edge_hit game_obj edge = false.
Proof.
  intros Hfoot Hout.
  assert (Hbox : in_bounding_box edge point = false).
  { unfold in_bounding_box.
    destruct Hout as [[Hb Hp] | [[Hb Hp] | [[Hb Hp] | [Hb Hp]]]]; rewrite Hb.
    - assert (H1 : Rleb (Point2D.x point) 0 = false) by (apply Rleb_false_iff; lra).
      assert (H2 : isclose (Point2D.x point) 0 rel_tol_1e_4 = false).
      { destruct (isclose _ _ _) eqn:H; [|reflexivity]. apply isclose_zero in H. lra. }
      now rewrite H1, H2.
    - assert (H1 : Rgeb (Point2D.x point) 0 = false) by (apply Rleb_false_iff; lra).
      assert (H2 : isclose (Point2D.x point) 0 rel_tol_1e_4 = false).
      { destruct (isclose _ _ _) eqn:H; [|reflexivity]. apply isclose_zero in H. lra. }
      rewrite H1, H2. now rewrite andb_false_r.
    - assert (H1 : Rleb (Point2D.y point) 0 = false) by (apply Rleb_false_iff; lra).
      assert (H2 : isclose (Point2D.y point) 0 rel_tol_1e_4 = false).
      { destruct (isclose _ _ _) eqn:H; [|reflexivity]. apply isclose_zero in H. lra. }
      rewrite H1, H2. now rewrite andb_false_r.
    - assert (H1 : Rgeb (Point2D.y point) 0 = false) by (apply Rleb_false_iff; lra).
      assert (H2 : isclose (Point2D.y point) 0 rel_tol_1e_4 = false).
      { destruct (isclose _ _ _) eqn:H; [|reflexivity]. apply isclose_zero in H. lra. }
      rewrite H1, H2. now rewrite andb_false_r. }
  split; [exact Hbox|]. unfold edge_hit. now rewrite Hfoot, Hbox.
Qed.

Lemma robot_just_beyond_foot :
  Line2D.find_intersection
    (LineSegment2D.find_perpendicular edge_ending_at_zero (center robot_just_beyond))
    (LineSegment2D.line edge_ending_at_zero) = Some (Point2D.mk (1 / 100000) 0).
Proof.
  unfold Line2D.find_intersection. destruct (Req_dec_T _ 0) as [Hz | Hnz].
  - exfalso. revert Hz.
    cbv [Line2D.cross Line2D.dx Line2D.dy Line2D.p Line2D.q
         LineSegment2D.find_perpendicular LineSegment2D.line
         LineSegment2D.point1 LineSegment2D.point2 Point2D.x Point2D.y
         edge_ending_at_zero center robot_just_beyond robot_at pose
         Pose2D.position Vector2D.x Vector2D.y]. lra.
  - cbv [Line2D.cross Line2D.dx Line2D.dy Line2D.p Line2D.q
         LineSegment2D.find_perpendicular LineSegment2D.line
         LineSegment2D.point1 LineSegment2D.point2 Point2D.x Point2D.y
         edge_ending_at_zero center robot_just_beyond robot_at pose
         Pose2D.position Vector2D.x Vector2D.y]. f_equal. f_equal; field.
Qed.

Lemma no_tolerance_at_zero_witness :
  Line2D.find_intersection
    (LineSegment2D.find_perpendicular edge_ending_at_zero (center robot_just_beyond))
    (LineSegment2D.line edge_ending_at_zero) = Some (Point2D.mk (1 / 100000) 0)
  /\ Rmax (- (2)) 0 = 0 /\ 0 < 1 / 100000
  /\ edge_hit robot_just_beyond edge_ending_at_zero = false.
Proof.
  assert (Hmax : Rmax (- (2)) 0 = 0) by (apply Rmax_right; lra).
  assert (Hpos : 0 < 1 / 100000) by lra.
  destruct (no_tolerance_at_zero robot_just_beyond edge_ending_at_zero
              (Point2D.mk (1 / 100000) 0) robot_just_beyond_foot
              (or_introl (conj Hmax Hpos))) as [_ Hmiss].
  split; [exact robot_just_beyond_foot|]. split; [exact Hmax|]. split; [exact Hpos|].
  exact Hmiss.
Defined.

(** * Further properties of the tick *)

Section TickProperties.

Variable obj_update : GameObject -> R -> GameObject.

(** What the turn of an object leaves behind its own reference. *)
Lemma update_object_self (game_objects : list ref) (t_interval : R)
    (st : Store) (g : ref) :
  let moved := obj_update (st g) t_interval in
  update_object obj_update game_objects t_interval st g g
  = if rolls_back obj_update game_objects t_interval st g
    then moveTo moved (pose (st g)) else moved.
Proof.
  intros moved. unfold update_object, rolls_back. rewrite deepcopy_eq.
  destruct (Kind_eqb _ _); [destruct (collision_check _ _ _)|]; simpl;
    now rewrite !set_same.
Qed.

(** X7. With every object registered once, a tick leaves each registered
    object either as its motion update made it, or, for a robot only,
    as its motion update made it but with the pose it had before the
    tick; there is no third outcome, and an object that is not a robot
    after its motion update always keeps the update. *)
Theorem tick_moves_or_restores (self : Game) (t_interval : R) (r : ref) :
  NoDup (game_objects self) -> In r (game_objects self) ->
  let moved := obj_update (objects self r) t_interval in
  let after := objects (update obj_update self t_interval) r in
  (after = moved
   \/ (kind moved = Robot /\ after = moveTo moved (pose (objects self r))))
  /\ (kind moved <> Robot -> after = moved).
Proof.
  intros Hnodup Hin moved after.
  destruct (in_split r (game_objects self) Hin) as [pre [post Hsplit]].
  assert (Hparts : ~ In r pre /\ ~ In r post).
  { rewrite Hsplit in Hnodup. apply NoDup_remove_2 in Hnodup.
    split; intros H; apply Hnodup; apply in_or_app; auto. }
  destruct Hparts as [Hpre Hpost].
  set (turn := update_object obj_update (game_objects self) t_interval).
  set (st0 := fold_left turn pre (objects self)).
  assert (Hst0 : st0 r = objects self r)
    by (apply fold_update_object_other; exact Hpre).
  assert (Hafter : after = turn st0 r r).
  { unfold after, update. cbn [objects].
    change (fold_left turn (game_objects self) (objects self) r = turn st0 r r).
    rewrite Hsplit, fold_left_app. cbn [fold_left]. fold st0.
    apply fold_update_object_other. exact Hpost. }
  assert (Hturn : turn st0 r r
                  = if rolls_back obj_update (game_objects self) t_interval st0 r
                    then moveTo moved (pose (objects self r)) else moved).
  { unfold turn. rewrite update_object_self, Hst0. reflexivity. }
  rewrite Hafter, Hturn.
  destruct (rolls_back obj_update (game_objects self) t_interval st0 r) eqn:Hrb.
  - unfold rolls_back in Hrb. apply andb_true_iff in Hrb as [Hk _].
    rewrite set_same, Hst0 in Hk. apply Kind_eqb_eq in Hk. fold moved in Hk.
    split; [right; split; [exact Hk | reflexivity] | congruence].
  - split; [left; reflexivity | reflexivity].
Qed.

Lemma fold_keeps_shapes (checked : list ref) (t_interval : R) (turns : list ref)
    (r : ref) :
  pose_only obj_update ->
  forall st,
    let st' := fold_left (update_object obj_update checked t_interval) turns st in
    kind (st' r) = kind (st r) /\ radius (st' r) = radius (st r)
    /\ vertex (st' r) = vertex (st r).
Proof.
  intros Hpose. induction turns as [|g turns IH]; intros st; simpl; [auto|].
  destruct (IH (update_object obj_update checked t_interval st g)) as [Hk [Hr Hv]].
  rewrite Hk, Hr, Hv. clear IH Hk Hr Hv.
  destruct (Nat.eq_dec r g) as [-> | Hne].
  - rewrite update_object_self.
    destruct (Hpose (st g) t_interval) as [Hk [Hr Hv]].
    destruct (rolls_back _ _ _ _ _); simpl; auto.
  - rewrite update_object_other by exact Hne. auto.
Qed.

(** X8. A tick changes nothing but poses, provided the motion updates
    change nothing but poses: every object, registered or not, once or
    several times, has the kind, the radius and the vertices it had
    before the tick. *)
Theorem tick_keeps_shapes (self : Game) (t_interval : R) (r : ref) :
  pose_only obj_update ->
  kind (objects (update obj_update self t_interval) r) = kind (objects self r)
  /\ radius (objects (update obj_update self t_interval) r) = radius (objects self r)
  /\ vertex (objects (update obj_update self t_interval) r) = vertex (objects self r).
Proof.
  intros Hpose. unfold update. cbn [objects]. now apply fold_keeps_shapes.
Qed.

Lemma update_object_ext (game_objects : list ref) (t_interval : R)
    (st st' : Store) (g : ref) :
  (forall r, st' r = st r) ->
  forall r, update_object obj_update game_objects t_interval st' g r
            = update_object obj_update game_objects t_interval st g r.
Proof.
  intros Hsame r.
  assert (Hset : forall o a, set st' g o a = set st g o a)
    by (intros o a; unfold set; destruct (a =? g)%nat; auto).
  assert (Hrb : rolls_back obj_update game_objects t_interval st' g
                = rolls_back obj_update game_objects t_interval st g).
  { unfold rolls_back, collision_check. rewrite !set_same, (Hsame g).
    rewrite (scan_agree (set st g (obj_update (st g) t_interval))
                        (set st' g (obj_update (st g) t_interval)));
      [reflexivity | apply Hset | intros a; left; apply Hset]. }
  destruct (Nat.eq_dec r g) as [-> | Hne].
  - now rewrite !update_object_self, Hrb, (Hsame g).
  - rewrite !update_object_other by exact Hne. apply Hsame.
Qed.

(** X9. A blocked robot stays put: when the motion updates change
    nothing but poses and the turn of robot [g] ends in a rollback, the
    turn leaves the whole store as it was, and so does any number of
    further turns of [g] while nothing else moves. *)
Theorem blocked_robot_stays (game_objects : list ref) (t_interval : R)
    (st : Store) (g : ref) (n : nat) :
  pose_only obj_update ->
  rolls_back obj_update game_objects t_interval st g = true ->
  forall r,
    Nat.iter n (fun s => update_object obj_update game_objects t_interval s g) st r
    = st r.
Proof.
  intros Hpose Hrb.
  assert (Hone : forall r, update_object obj_update game_objects t_interval st g r = st r).
  { intros r. destruct (Nat.eq_dec r g) as [-> | Hne].
    - rewrite update_object_self, Hrb.
      destruct (Hpose (st g) t_interval) as [Hk [Hr Hv]].
      unfold moveTo. rewrite Hk, Hr, Hv. now destruct (st g).
    - now apply update_object_other. }
  induction n as [|n IH]; intros r; simpl; [reflexivity|].
  rewrite (update_object_ext game_objects t_interval st _ g IH). apply Hone.
Qed.

Lemma turn_alone (k : nat) (t_interval : R) (st : Store) (g : ref) :
  forall r, update_object obj_update (repeat g k) t_interval st g r
            = set st g (obj_update (st g) t_interval) r.
Proof.
  intros r. unfold update_object.
  destruct (Kind_eqb (kind (set st g (obj_update (st g) t_interval) g)) Robot) eqn:Hk;
    [|reflexivity].
  apply Kind_eqb_eq in Hk. unfold collision_check.
  rewrite scan_nothing; [reflexivity|].
  intros a Ha. apply repeat_spec in Ha. subst a. unfold is_robot_pair.
  rewrite Nat.eqb_refl, andb_false_r. split; [reflexivity | congruence].
Qed.

Lemma fold_update_object_ext (checked : list ref) (t_interval : R) (turns : list ref) :
  forall st st', (forall r, st' r = st r) ->
    forall r,
      fold_left (update_object obj_update checked t_interval) turns st' r
      = fold_left (update_object obj_update checked t_interval) turns st r.
Proof.
  induction turns as [|a turns IH]; intros st st' Hs r; simpl; [apply Hs|].
  apply IH. intros r'. now apply update_object_ext.
Qed.

Lemma fold_turns_alone (k : nat) (t_interval : R) (g : ref) (m : nat) :
  forall st,
    fold_left (update_object obj_update (repeat g k) t_interval) (repeat g m) st g
    = Nat.iter m (fun o => obj_update o t_interval) (st g).
Proof.
  induction m as [|m IH]; intros st; [reflexivity|].
  cbn [repeat fold_left].
  rewrite (fold_update_object_ext (repeat g k) t_interval (repeat g m)
             (set st g (obj_update (st g) t_interval)) _
             (turn_alone k t_interval st g)).
  rewrite IH, set_same. symmetry. apply Nat.iter_succ_r.
Qed.

(** X10. Nothing prevents an object from being registered more than
    once, and each registration gives it a turn: a robot that is the only
    registered object, registered [k] times, receives [k] motion updates
    in one tick, none of them rolled back. *)
Theorem registered_k_times_moves_k_times (self : Game) (t_interval : R)
    (g : ref) (k : nat) :
  game_objects self = repeat g k ->
  objects (update obj_update self t_interval) g
  = Nat.iter k (fun o => obj_update o t_interval) (objects self g).
Proof.
  intros Hobjs. unfold update. cbn [objects]. rewrite Hobjs.
  apply fold_turns_alone.
Qed.

(** X11. The loop of [run]: however many times its body has run, the
    game has gone through that many ticks of interval 1, the registered
    objects are the same list, objects that are not registered are as
    they were, and the process has slept one second and printed one
    empty line per tick, in this order. *)
Theorem run_prefix_invariants (self : Game) (n : nat) :
  fst (run_prefix obj_update n self)
  = Nat.iter n (fun game => update obj_update game 1) self
  /\ game_objects (fst (run_prefix obj_update n self)) = game_objects self
  /\ (forall r, ~ In r (game_objects self) ->
        objects (fst (run_prefix obj_update n self)) r = objects self r)
  /\ snd (run_prefix obj_update n self)
     = concat (repeat [Sleep 1; Print EmptyString] n).
Proof.
  unfold run_prefix. induction n as [|n [IHg [IHo [IHu IHe]]]].
  - repeat split; auto.
  - rewrite !Nat.iter_succ.
    set (s := Nat.iter n (run_iteration obj_update) (self, [])) in *.
    unfold run_iteration. cbn [fst snd].
    split; [now rewrite IHg|]. split; [exact IHo|]. split.
    + intros r Hr. unfold update. cbn [objects].
      rewrite fold_update_object_other by (now rewrite IHo). now apply IHu.
    + rewrite IHe. unfold update_time_interval. clear.
      induction n as [|n IH]; [reflexivity|].
      cbn [repeat concat]. rewrite <- app_assoc, IH. reflexivity.
Qed.

End TickProperties.

Lemma march_left_pose_only : pose_only march_left.
Proof.
  intros o t_interval. unfold march_left. destruct (kind o) eqn:Hk; simpl; auto.
Qed.

Lemma duel_16_rolls_back :
  rolls_back march_left [1%nat; 0%nat] 1 duel_16 1%nat = true.
Proof. unfold rolls_back. now rewrite duel_16_approach. Qed.

Lemma tick_moves_or_restores_witness :
  NoDup (game_objects duel_16_game) /\ In 1%nat (game_objects duel_16_game)
  /\ (objects (update march_left duel_16_game 1) 1%nat = march_left (duel_16 1%nat) 1
      \/ (kind (march_left (duel_16 1%nat) 1) = Robot
          /\ objects (update march_left duel_16_game 1) 1%nat
             = moveTo (march_left (duel_16 1%nat) 1) (pose (duel_16 1%nat)))).
Proof.
  assert (H1 : NoDup (game_objects duel_16_game)).
  { repeat constructor; simpl; intuition discriminate. }
  assert (H2 : In 1%nat (game_objects duel_16_game)) by (left; reflexivity).
  destruct (tick_moves_or_restores march_left duel_16_game 1 1%nat H1 H2) as [Hcases _].
  split; [exact H1|]. split; [exact H2 | exact Hcases].
Defined.

Lemma tick_keeps_shapes_witness :
  pose_only march_left
  /\ radius (objects (update march_left duel_16_game 1) 1%nat) = radius (duel_16 1%nat).
Proof.
  destruct (tick_keeps_shapes march_left duel_16_game 1 1%nat march_left_pose_only)
    as [_ [Hr _]].
  split; [exact march_left_pose_only | exact Hr].
Defined.

Lemma blocked_robot_stays_witness :
  pose_only march_left
  /\ rolls_back march_left [1%nat; 0%nat] 1 duel_16 1%nat = true
  /\ (forall r,
        Nat.iter 3 (fun s => update_object march_left [1%nat; 0%nat] 1 s 1%nat) duel_16 r
        = duel_16 r).
Proof.
  pose proof (blocked_robot_stays march_left [1%nat; 0%nat] 1 duel_16 1%nat 3
                march_left_pose_only duel_16_rolls_back) as Hstay.
  split; [exact march_left_pose_only|]. split; [exact duel_16_rolls_back | exact Hstay].
Defined.

Lemma registered_k_times_moves_k_times_witness :
  let once := snd (add_game_object (mkGame duel_16 []) (PyGameObject 1%nat)) in
  let twice := snd (add_game_object once (PyGameObject 1%nat)) in
  game_objects twice = repeat 1%nat 2
  /\ objects (update march_left twice 1) 1%nat
     = march_left (march_left (duel_16 1%nat) 1) 1.
Proof.
  intros once twice.
  assert (H : game_objects twice = repeat 1%nat 2) by reflexivity.
  split; [exact H|].
  exact (registered_k_times_moves_k_times march_left twice 1 1%nat 2 H).
Defined.

(** * Properties of the constructor *)

Lemma pose_of_placed (entry : json) (p : Placement) :
  placed entry p -> pose_of entry = Done (pose_at p).
Proof.
  intros [coords [Hc [Hx [Hy Ho]]]]. unfold pose_of.
  rewrite Hc. cbn [bind]. rewrite Hx. cbn [bind]. rewrite Hy. cbn [bind new_Vector2D].
  rewrite Ho. reflexivity.
Qed.

Lemma pose_of_string (s : string) : pose_of (JString s) = Throws InitTypeError.
Proof. reflexivity. Qed.

Lemma register_done (s : Building) (obj : GameObject) :
  register s obj
  = Done (S (fst s),
          mkGame (set (objects (snd s)) (fst s) obj) (game_objects (snd s) ++ [fst s])).
Proof. reflexivity. Qed.

Lemma register_represents (s : Building) (objs : list GameObject) (obj : GameObject) :
  represents s objs ->
  exists s', register s obj = Done s' /\ represents s' (objs ++ [obj]).
Proof.
  intros [Hn [Hl Hst]]. rewrite register_done. eexists. split; [reflexivity|].
  unfold represents. cbn [fst snd objects game_objects].
  rewrite length_app, Nat.add_1_r, seq_S, Hl, Hn. simpl.
  repeat split. intros r. unfold set, store_of.
  destruct (Nat.eqb_spec r (length objs)) as [-> | Hne].
  - now rewrite nth_middle.
  - rewrite Hst. unfold store_of.
    destruct (Nat.lt_ge_cases r (length objs)) as [Hlt | Hge].
    + now rewrite app_nth1.
    + rewrite !nth_overflow; [reflexivity | | exact Hge].
      rewrite length_app. simpl. lia.
Qed.

Lemma for_each_represents (body : json -> Building -> Init Building)
    (entries : list json) (objs : list GameObject) :
  Forall2 (fun entry obj => forall s, body entry s = register s obj) entries objs ->
  forall s objs0,
    represents s objs0 ->
    exists s', for_each body entries s = Done s' /\ represents s' (objs0 ++ objs).
Proof.
  induction 1 as [|entry obj entries objs Hbody Hrest IH]; intros s objs0 Hs; simpl.
  - exists s. rewrite app_nil_r. auto.
  - rewrite Hbody.
    destruct (register_represents s objs0 obj Hs) as [s1 [Hreg Hs1]].
    rewrite Hreg. destruct (IH s1 (objs0 ++ [obj]) Hs1) as [s' [Hfor Hs']].
    exists s'. split; [exact Hfor|]. now rewrite <- app_assoc in Hs'.
Qed.

Lemma map_store_of (objs : list GameObject) :
  map (store_of objs) (seq 0 (length objs)) = objs.
Proof.
  apply (nth_ext _ _ (zone_at 0 0 0) (zone_at 0 0 0)).
  - now rewrite length_map, length_seq.
  - intros n Hn. rewrite length_map, length_seq in Hn.
    rewrite (nth_indep _ _ (store_of objs 0%nat)) by now rewrite length_map, length_seq.
    rewrite map_nth, seq_nth by exact Hn. reflexivity.
Qed.

Section InitProperties.

Variable Map : Type.
Variable new_Map : json -> json -> json -> option Map.
Variable Zone_shape : json -> json -> option (R * list Vector2D.t).
Variable Wall_shape : json -> json -> option (R * list Vector2D.t).
Variable Robot_shape : json -> json -> json -> option (R * list Vector2D.t).

Lemma add_zone_described (map_config config entry : json) (obj : GameObject) :
  subscript map_config "config" = Done config ->
  zone_described Zone_shape config entry obj ->
  forall s, add_zone Zone_shape map_config entry s = register s obj.
Proof.
  intros Hc [p [side [id [shape [Hp [Hside [Hid [Hshape ->]]]]]]]] s.
  unfold add_zone. rewrite (pose_of_placed _ _ Hp). cbn [bind].
  rewrite Hc. cbn [bind]. rewrite Hside. cbn [bind]. rewrite Hid. cbn [bind].
  rewrite Hshape. reflexivity.
Qed.

Lemma add_wall_described (map_config config entry : json) (obj : GameObject) :
  subscript map_config "config" = Done config ->
  wall_described Wall_shape config entry obj ->
  forall s, add_wall Wall_shape map_config entry s = register s obj.
Proof.
  intros Hc [p [len [thickness [shape [Hp [Hlen [Hth [Hshape ->]]]]]]]] s.
  unfold add_wall. rewrite (pose_of_placed _ _ Hp). cbn [bind].
  rewrite Hlen. cbn [bind]. rewrite Hc. cbn [bind]. rewrite Hth. cbn [bind].
  rewrite Hshape. reflexivity.
Qed.

Lemma add_robot_described (entry : json) (obj : GameObject) :
  robot_described Robot_shape entry obj ->
  forall s, add_robot Robot_shape entry s = register s obj.
Proof.
  intros [p [len [width [id [shape [Hp [Hlen [Hw [Hid [Hshape ->]]]]]]]]]] s.
  unfold add_robot. rewrite (pose_of_placed _ _ Hp). cbn [bind].
  rewrite Hlen. cbn [bind]. rewrite Hw. cbn [bind]. rewrite Hid. cbn [bind].
  rewrite Hshape. reflexivity.
Qed.

Lemma add_all_represents (map_config config : json) (key : string) (entries : json)
    (items : list json) (body : json -> Building -> Init Building)
    (objs : list GameObject) :
  subscript map_config "config" = Done config ->
  subscript config key = Done entries ->
  items_of entries = Done items ->
  Forall2 (fun entry obj => forall s, body entry s = register s obj) items objs ->
  forall s objs0,
    represents s objs0 ->
    exists s', add_all map_config key body s = Done s' /\ represents s' (objs0 ++ objs).
Proof.
  intros Hc Hk Hi Hall s objs0 Hs. unfold add_all.
  rewrite Hc. cbn [bind]. rewrite Hk. cbn [bind]. rewrite Hi. cbn [bind].
  now apply (for_each_represents body items objs Hall).
Qed.

Lemma init_map (map_config config map_width map_height wall_thickness : json)
    (arena : Map) :
  subscript map_config "config" = Done config ->
  subscript config "map_width" = Done map_width ->
  subscript config "map_height" = Done map_height ->
  subscript config "wall_thickness" = Done wall_thickness ->
  new_Map map_width map_height wall_thickness = Some arena ->
  init Map new_Map Zone_shape Wall_shape Robot_shape map_config
  = (s1 <- add_all map_config "zones" (add_zone Zone_shape map_config)
             (0%nat, mkGame (store_of []) []) ;;
     s2 <- add_all map_config "walls" (add_wall Wall_shape map_config) s1 ;;
     s3 <- add_all map_config "robots" (add_robot Robot_shape) s2 ;;
     Done (arena, snd s3)).
Proof.
  intros Hc Hw Hh Ht Hm. unfold init.
  rewrite Hc. cbn [bind]. rewrite Hw. cbn [bind]. rewrite Hh. cbn [bind].
  rewrite Ht. cbn [bind]. rewrite Hm. reflexivity.
Qed.

Lemma represents_nothing : represents (0%nat, mkGame (store_of []) []) [].
Proof. unfold represents. simpl. auto. Qed.

Lemma init_described (map_config config map_width map_height wall_thickness
    : json) (arena : Map) (zs ws rs : list json)
    (zone_objs wall_objs robot_objs : list GameObject) :
  subscript map_config "config" = Done config ->
  subscript config "map_width" = Done map_width ->
  subscript config "map_height" = Done map_height ->
  subscript config "wall_thickness" = Done wall_thickness ->
  new_Map map_width map_height wall_thickness = Some arena ->
  subscript config "zones" = Done (JArray zs) ->
  subscript config "walls" = Done (JArray ws) ->
  subscript config "robots" = Done (JArray rs) ->
  Forall2 (zone_described Zone_shape config) zs zone_objs ->
  Forall2 (wall_described Wall_shape config) ws wall_objs ->
  Forall2 (robot_described Robot_shape) rs robot_objs ->
  exists game,
    init Map new_Map Zone_shape Wall_shape Robot_shape map_config = Done (arena, game)
    /\ NoDup (game_objects game)
    /\ map (objects game) (game_objects game) = zone_objs ++ wall_objs ++ robot_objs
    /\ (forall r, ~ In r (game_objects game) -> objects game r = store_of [] r).
Proof.
  intros Hc Hw Hh Ht Hm Hzs Hws Hrs Hz Hwl Hr.
  rewrite (init_map _ _ _ _ _ _ Hc Hw Hh Ht Hm).
  destruct (add_all_represents map_config config "zones" (JArray zs) zs
              (add_zone Zone_shape map_config) zone_objs Hc Hzs eq_refl)
    with (s := (0%nat, mkGame (store_of []) [])) (objs0 := @nil GameObject)
    as [s1 [H1 Hs1]].
  { eapply Forall2_impl; [|exact Hz]. intros e o. now apply add_zone_described. }
  { exact represents_nothing. }
  rewrite H1. cbn [bind].
  destruct (add_all_represents map_config config "walls" (JArray ws) ws
              (add_wall Wall_shape map_config) wall_objs Hc Hws eq_refl)
    with (s := s1) (objs0 := [] ++ zone_objs) as [s2 [H2 Hs2]].
  { eapply Forall2_impl; [|exact Hwl]. intros e o. now apply add_wall_described. }
  { exact Hs1. }
  rewrite H2. cbn [bind].
  destruct (add_all_represents map_config config "robots" (JArray rs) rs
              (add_robot Robot_shape) robot_objs Hc Hrs eq_refl)
    with (s := s2) (objs0 := ([] ++ zone_objs) ++ wall_objs) as [s3 [H3 Hs3]].
  { eapply Forall2_impl; [|exact Hr]. intros e o. now apply add_robot_described. }
  { exact Hs2. }
  rewrite H3. cbn [bind]. exists (snd s3). split; [reflexivity|].
  destruct Hs3 as [_ [Hl Hst]]. simpl in Hl, Hst. rewrite <- app_assoc in Hl, Hst.
  rewrite Hl. split; [apply seq_NoDup|]. split.
  - rewrite <- (map_store_of (zone_objs ++ wall_objs ++ robot_objs)) at 2.
    apply map_ext. exact Hst.
  - intros r Hr'. rewrite Hst. unfold store_of.
    rewrite nth_overflow; [now destruct r|].
    destruct (Nat.lt_ge_cases r (length (zone_objs ++ wall_objs ++ robot_objs)))
      as [Hlt | Hge]; [|exact Hge].
    exfalso. apply Hr'. apply in_seq. lia.
Qed.

(** X12. A well-formed configuration builds the game it describes: when
    the map keys are present and every entry of [zones], [walls] and
    [robots] has its coordinates, orientation and dimensions, the
    constructor succeeds; the registered objects are, in this order, the
    zones, the walls and the robots of the configuration, each once, at
    the position given and with the orientation given in degrees turned
    into radians. *)
Theorem init_builds_described (map_config config map_width map_height wall_thickness
    : json) (arena : Map) (zs ws rs : list json)
    (zone_objs wall_objs robot_objs : list GameObject) :
  subscript map_config "config" = Done config ->
  subscript config "map_width" = Done map_width ->
  subscript config "map_height" = Done map_height ->
  subscript config "wall_thickness" = Done wall_thickness ->
  new_Map map_width map_height wall_thickness = Some arena ->
  subscript config "zones" = Done (JArray zs) ->
  subscript config "walls" = Done (JArray ws) ->
  subscript config "robots" = Done (JArray rs) ->
  Forall2 (zone_described Zone_shape config) zs zone_objs ->
  Forall2 (wall_described Wall_shape config) ws wall_objs ->
  Forall2 (robot_described Robot_shape) rs robot_objs ->
  exists game,
    init Map new_Map Zone_shape Wall_shape Robot_shape map_config = Done (arena, game)
    /\ NoDup (game_objects game)
    /\ map (objects game) (game_objects game) = zone_objs ++ wall_objs ++ robot_objs
    /\ (forall r, ~ In r (game_objects game) -> objects game r = store_of [] r).
Proof.
  intros Hc Hw Hh Ht Hm Hzs Hws Hrs Hz Hwl Hr.
  exact (init_described map_config config map_width map_height wall_thickness
           arena zs ws rs zone_objs wall_objs robot_objs
           Hc Hw Hh Ht Hm Hzs Hws Hrs Hz Hwl Hr).
Qed.

End InitProperties.

Section InitErrors.

Variable Map : Type.
Variable new_Map : json -> json -> json -> option Map.
Variable Zone_shape : json -> json -> option (R * list Vector2D.t).
Variable Wall_shape : json -> json -> option (R * list Vector2D.t).
Variable Robot_shape : json -> json -> json -> option (R * list Vector2D.t).

(** X13. The keys of the map are read before anything is built, in the
    order [map_width], [map_height], [wall_thickness]: a configuration
    without [config] raises [KeyError] for [config], one whose [config]
    is not an object raises [TypeError], and otherwise the first of the
    three keys that is missing is the one the [KeyError] names, whatever
    else the configuration holds. *)
Theorem init_reports_first_missing_key (top : list (string * json)) :
  let result := init Map new_Map Zone_shape Wall_shape Robot_shape (JObject top) in
  match dict_get top "config" with
  | None => result = Throws (KeyError "config")
  | Some (JObject members) =>
      match dict_get members "map_width", dict_get members "map_height",
            dict_get members "wall_thickness" with
      | None, _, _ => result = Throws (KeyError "map_width")
      | Some _, None, _ => result = Throws (KeyError "map_height")
      | Some _, Some _, None => result = Throws (KeyError "wall_thickness")
      | Some _, Some _, Some _ => True
      end
  | Some _ => result = Throws InitTypeError
  end.
Proof.
  intros result. unfold result, init. cbn [subscript].
  destruct (dict_get top "config") as [config|] eqn:Hc; [|reflexivity].
  cbn [bind]. destruct config; try reflexivity. cbn [subscript].
  destruct (dict_get members "map_width") as [w|]; [|reflexivity]. cbn [bind].
  destruct (dict_get members "map_height") as [h|]; [|reflexivity]. cbn [bind].
  destruct (dict_get members "wall_thickness") as [t|]; [|reflexivity].
  exact I.
Qed.

(** X14. [zone_side_length] is read once per zone, after the coordinates
    and the orientation of the zone: a configuration that lacks the key
    fails with [KeyError] for it as soon as it has one well-placed zone,
    and builds the game of its walls and robots when it has no zone. *)
Theorem zone_side_length_read_per_zone (map_config : json)
    (members : list (string * json)) (map_width map_height wall_thickness : json)
    (arena : Map) (zs : list json) :
  subscript map_config "config" = Done (JObject members) ->
  dict_get members "map_width" = Some map_width ->
  dict_get members "map_height" = Some map_height ->
  dict_get members "wall_thickness" = Some wall_thickness ->
  new_Map map_width map_height wall_thickness = Some arena ->
  dict_get members "zones" = Some (JArray zs) ->
  dict_get members "zone_side_length" = None ->
  let result := init Map new_Map Zone_shape Wall_shape Robot_shape map_config in
  (forall entry rest p,
      zs = entry :: rest -> placed entry p ->
      result = Throws (KeyError "zone_side_length"))
  /\ (zs = [] ->
      forall ws rs wall_objs robot_objs,
        dict_get members "walls" = Some (JArray ws) ->
        dict_get members "robots" = Some (JArray rs) ->
        Forall2 (wall_described Wall_shape (JObject members)) ws wall_objs ->
        Forall2 (robot_described Robot_shape) rs robot_objs ->
        exists game,
          result = Done (arena, game)
          /\ map (objects game) (game_objects game) = wall_objs ++ robot_objs).
Proof.
  intros Hc Hw Hh Ht Hm Hzs Hside result.
  assert (Hsub : forall key v, dict_get members key = Some v ->
                               subscript (JObject members) key = Done v)
    by (intros key v H; cbn [subscript]; now rewrite H).
  split.
  - intros entry rest p -> Hp. unfold result.
    rewrite (init_map Map new_Map Zone_shape Wall_shape Robot_shape
               _ _ _ _ _ _ Hc (Hsub _ _ Hw) (Hsub _ _ Hh) (Hsub _ _ Ht) Hm).
    unfold add_all at 1. rewrite Hc. cbn [bind]. rewrite (Hsub _ _ Hzs).
    cbn [bind items_of for_each]. unfold add_zone.
    rewrite (pose_of_placed _ _ Hp). cbn [bind]. rewrite Hc. cbn [bind subscript].
    rewrite Hside. reflexivity.
  - intros -> ws rs wall_objs robot_objs Hws Hrs Hwl Hr.
    destruct (init_described Map new_Map Zone_shape Wall_shape Robot_shape
                map_config (JObject members) map_width map_height wall_thickness
                arena [] ws rs [] wall_objs robot_objs
                Hc (Hsub _ _ Hw) (Hsub _ _ Hh) (Hsub _ _ Ht) Hm
                (Hsub _ _ Hzs) (Hsub _ _ Hws) (Hsub _ _ Hrs)
                (Forall2_nil _) Hwl Hr) as [game [Hinit [_ [Hobjs _]]]].
    exists game. split; [exact Hinit | exact Hobjs].
Qed.

(** X15. A value of [zones], [walls] or [robots] that is not a list: an
    empty object and an empty string are run through as no entry at all,
    without an error; a non-empty object or string, a number, a boolean
    and [null] raise [TypeError]. *)
Theorem entries_that_are_no_list (map_config config : json) (key : string)
    (entries : json) (body : json -> Building -> Init Building) (s : Building) :
  subscript map_config "config" = Done config ->
  subscript config key = Done entries ->
  In body [add_zone Zone_shape map_config; add_wall Wall_shape map_config;
           add_robot Robot_shape] ->
  add_all map_config key body s
  = match entries with
    | JArray items => for_each body items s
    | JObject [] => Done s
    | JString EmptyString => Done s
    | _ => Throws InitTypeError
    end.
Proof.
  intros Hc Hk Hbody. unfold add_all. rewrite Hc. cbn [bind]. rewrite Hk. cbn [bind].
  assert (Hstr : forall k s', body (JString k) s' = Throws InitTypeError).
  { intros k s'. destruct Hbody as [<- | [<- | [<- | []]]]; reflexivity. }
  destruct entries as [| b | r | str | items | members]; try reflexivity.
  - destruct str as [|c rest]; [reflexivity|].
    cbn [items_of characters bind for_each]. now rewrite Hstr.
  - destruct members as [|[k v] rest]; [reflexivity|].
    cbn [items_of map fst bind for_each]. now rewrite Hstr.
Qed.

End InitErrors.

(** ** The example configuration *)

Lemma example_zone_described (zones : json) :
  zone_described square_shape
    (example_settings [("zone_side_length", JNumber 1000)]%string zones)
    example_zone example_zone_object.
Proof.
  exists (mkPlacement 1000 1000 0), (JNumber 1000), (JString "A"), (0, rectangle 1 1).
  split; [|repeat split; reflexivity].
  exists (JObject [("x", JNumber 1000); ("y", JNumber 1000)]%string).
  repeat split; reflexivity.
Qed.

Lemma example_wall_described (zone_side_length : list (string * json)) (zones : json) :
  dict_get (example_members zone_side_length zones) "wall_thickness" = Some (JNumber 50) ->
  wall_described square_shape (example_settings zone_side_length zones)
    (entry_at 4000 2500 90 [("length", JNumber 1000)]%string) example_wall_object.
Proof.
  intros Ht.
  exists (mkPlacement 4000 2500 90), (JNumber 1000), (JNumber 50), (0, rectangle 1 1).
  split; [|split; [reflexivity|split; [|split; reflexivity]]].
  - exists (JObject [("x", JNumber 4000); ("y", JNumber 2500)]%string).
    repeat split; reflexivity.
  - unfold example_settings. cbn [subscript]. now rewrite Ht.
Qed.

Lemma example_robot_described :
  robot_described disc_shape
    (entry_at 500 500 180
       [("length", JNumber 600); ("width", JNumber 450); ("robot_id", JNumber 1)]%string)
    example_robot_object.
Proof.
  exists (mkPlacement 500 500 180), (JNumber 600), (JNumber 450), (JNumber 1), (1, []).
  split; [|repeat split; reflexivity].
  exists (JObject [("x", JNumber 500); ("y", JNumber 500)]%string).
  repeat split; reflexivity.
Qed.

Lemma init_builds_described_witness :
  exists game,
    init (json * json * json) example_Map square_shape square_shape disc_shape
         (example_config [("zone_side_length", JNumber 1000)]%string
                         (JArray [example_zone]))
    = Done ((JNumber 8000, JNumber 5000, JNumber 50), game)
    /\ map (objects game) (game_objects game)
       = [example_zone_object; example_wall_object; example_robot_object].
Proof.
  destruct (init_builds_described (json * json * json) example_Map
              square_shape square_shape disc_shape
              (example_config [("zone_side_length", JNumber 1000)]%string
                              (JArray [example_zone]))
              (example_settings [("zone_side_length", JNumber 1000)]%string
                                (JArray [example_zone]))
              (JNumber 8000) (JNumber 5000) (JNumber 50)
              (JNumber 8000, JNumber 5000, JNumber 50)
              [example_zone]
              [entry_at 4000 2500 90 [("length", JNumber 1000)]%string]
              [entry_at 500 500 180
                 [("length", JNumber 600); ("width", JNumber 450);
                  ("robot_id", JNumber 1)]%string]
              [example_zone_object] [example_wall_object] [example_robot_object]
              eq_refl eq_refl eq_refl eq_refl eq_refl eq_refl eq_refl eq_refl
              (Forall2_cons _ _ (example_zone_described _) (Forall2_nil _))
              (Forall2_cons _ _ (example_wall_described _ _ eq_refl) (Forall2_nil _))
              (Forall2_cons _ _ example_robot_described (Forall2_nil _)))
    as [game [Hinit [_ [Hobjs _]]]].
  exists game. split; [exact Hinit | exact Hobjs].
Defined.

Lemma zone_side_length_read_per_zone_witness :
  init (json * json * json) example_Map square_shape square_shape disc_shape
       (example_config [] (JArray [example_zone]))
  = Throws (KeyError "zone_side_length")
  /\ exists game,
       init (json * json * json) example_Map square_shape square_shape disc_shape
            (example_config [] (JArray []))
       = Done ((JNumber 8000, JNumber 5000, JNumber 50), game)
       /\ map (objects game) (game_objects game)
          = [example_wall_object; example_robot_object].
Proof.
  split.
  - destruct (zone_side_length_read_per_zone (json * json * json) example_Map
                square_shape square_shape disc_shape
                (example_config [] (JArray [example_zone]))
                (example_members [] (JArray [example_zone]))
                (JNumber 8000) (JNumber 5000) (JNumber 50)
                (JNumber 8000, JNumber 5000, JNumber 50) [example_zone]
                eq_refl eq_refl eq_refl eq_refl eq_refl eq_refl eq_refl)
      as [Hfail _].
    apply (Hfail example_zone [] (mkPlacement 1000 1000 0) eq_refl).
    exists (JObject [("x", JNumber 1000); ("y", JNumber 1000)]%string).
    repeat split; reflexivity.
  - destruct (zone_side_length_read_per_zone (json * json * json) example_Map
                square_shape square_shape disc_shape
                (example_config [] (JArray []))
                (example_members [] (JArray []))
                (JNumber 8000) (JNumber 5000) (JNumber 50)
                (JNumber 8000, JNumber 5000, JNumber 50) []
                eq_refl eq_refl eq_refl eq_refl eq_refl eq_refl eq_refl)
      as [_ Hbuilt].
    apply (Hbuilt eq_refl
             [entry_at 4000 2500 90 [("length", JNumber 1000)]%string]
             [entry_at 500 500 180
                [("length", JNumber 600); ("width", JNumber 450);
                 ("robot_id", JNumber 1)]%string]
             [example_wall_object] [example_robot_object] eq_refl eq_refl).
    + exact (Forall2_cons _ _ (example_wall_described [] (JArray []) eq_refl)
                          (Forall2_nil _)).
    + exact (Forall2_cons _ _ example_robot_described (Forall2_nil _)).
Defined.

Lemma entries_that_are_no_list_witness :
  subscript (example_config [] (JObject [])) "config"
  = Done (example_settings [] (JObject []))
  /\ subscript (example_settings [] (JObject [])) "zones" = Done (JObject [])
  /\ add_all (example_config [] (JObject [])) "zones"
             (add_zone square_shape (example_config [] (JObject [])))
             (0%nat, mkGame (store_of []) [])
     = Done (0%nat, mkGame (store_of []) []).
Proof.
  split; [reflexivity|]. split; [reflexivity|].
  exact (entries_that_are_no_list square_shape square_shape disc_shape
           (example_config [] (JObject [])) (example_settings [] (JObject []))
           "zones" (JObject []) _ (0%nat, mkGame (store_of []) [])
           eq_refl eq_refl (or_introl eq_refl)).
Defined.

(** * Order of the turns, size of the robot, degenerate walls *)

Section TickOrder.

Variable obj_update : GameObject -> R -> GameObject.

(** X16. The order dependence of a tick, exactly: with every object
    registered once, the turn of an object sees the objects registered
    before it as the tick leaves them and all other objects as they were
    before the tick, and what its turn makes of it in that store is what
    the tick leaves. *)
Theorem turn_sees_earlier_turns (self : Game) (t_interval : R)
    (pre : list ref) (g : ref) (post : list ref) :
  game_objects self = pre ++ g :: post ->
  NoDup (game_objects self) ->
  let turn := update_object obj_update (game_objects self) t_interval in
  let st0 := fold_left turn pre (objects self) in
  (forall r, In r pre -> st0 r = objects (update obj_update self t_interval) r)
  /\ (forall r, ~ In r pre -> st0 r = objects self r)
  /\ objects (update obj_update self t_interval) g = turn st0 g g.
Proof.
  intros Hsplit Hnodup turn st0.
  assert (Hfinal : forall r, objects (update obj_update self t_interval) r
                             = fold_left turn (g :: post) st0 r).
  { intros r. unfold update. cbn [objects].
    change (fold_left turn (game_objects self) (objects self) r
            = fold_left turn (g :: post) st0 r).
    now rewrite Hsplit, fold_left_app. }
  rewrite Hsplit in Hnodup.
  split; [|split].
  - intros r Hr. rewrite Hfinal. symmetry. apply fold_update_object_other.
    intros Hin. revert Hnodup Hr Hin. clear. intros Hnodup Hr Hin.
    induction pre as [|x pre IH]; [destruct Hr|].
    simpl in Hnodup. inversion Hnodup as [|? ? Hx Hrest]; subst.
    destruct Hr as [-> | Hr]; [apply Hx; apply in_or_app; now right | now apply IH].
  - intros r Hr. now apply fold_update_object_other.
  - rewrite Hfinal. cbn [fold_left]. apply fold_update_object_other.
    apply NoDup_remove_2 in Hnodup. intros Hin. apply Hnodup.
    apply in_or_app. now right.
Qed.

End TickOrder.

Lemma turn_sees_earlier_turns_witness :
  game_objects duel_16_game = [1%nat] ++ 0%nat :: []
  /\ NoDup (game_objects duel_16_game)
  /\ (forall r, In r [1%nat] ->
        fold_left (update_object march_left (game_objects duel_16_game) 1)
                  [1%nat] (objects duel_16_game) r
        = objects (update march_left duel_16_game 1) r).
Proof.
  assert (H1 : game_objects duel_16_game = [1%nat] ++ 0%nat :: []) by reflexivity.
  assert (H2 : NoDup (game_objects duel_16_game)).
  { repeat constructor; simpl; intuition discriminate. }
  destruct (turn_sees_earlier_turns march_left duel_16_game 1 [1%nat] 0%nat [] H1 H2)
    as [Hpre _].
  split; [exact H1|]. split; [exact H2 | exact Hpre].
Defined.

Lemma wall_check_grow (game_obj game_obj' another_obj another_obj' : GameObject)
    (a : ref) :
  pose game_obj' = pose game_obj -> radius game_obj <= radius game_obj' ->
  pose another_obj' = pose another_obj -> vertex another_obj' = vertex another_obj ->
  fst (wall_check game_obj another_obj a false) = true ->
  fst (wall_check game_obj' another_obj' a false) = true.
Proof.
  intros Hpose Hr Hpose' Hv Hhit.
  assert (Hw : forall v, world_vertex another_obj' v = world_vertex another_obj v)
    by (intros v; unfold world_vertex; now rewrite Hpose').
  apply wall_check_iff. apply wall_check_iff in Hhit.
  rewrite Hv, (map_ext _ _ Hw).
  destruct Hhit as [[v [Hin Hc]] | [i [Hi He]]].
  - left. exists v. split; [exact Hin|]. rewrite Hw.
    apply Rltb_true_iff. apply Rltb_true_iff in Hc. rewrite Hpose. lra.
  - right. exists i. split; [exact Hi|].
    apply edge_hit_spec. apply edge_hit_spec in He as [pt [Hfoot [Hbox Hd]]].
    exists pt. unfold center in *. rewrite Hpose.
    split; [exact Hfoot | split; [exact Hbox | lra]].
Qed.

(** X17. Growing a robot never loses a collision: when the check of a
    robot is positive, it is still positive for the same robot with a
    larger radius, every other object unchanged. *)
Theorem larger_radius_keeps_collision (st : Store) (game_objects : list ref) (g : ref)
    (larger : R) :
  radius (st g) <= larger ->
  collision_check st game_objects g = true ->
  collision_check (set st g (with_radius (st g) larger)) game_objects g = true.
Proof.
  intros Hr. unfold collision_check. rewrite !scan_existsb. simpl.
  rewrite !existsb_exists. intros [a [Hin Hhit]]. exists a. split; [exact Hin|].
  set (st' := set st g (with_radius (st g) larger)).
  assert (Hg : st' g = with_radius (st g) larger) by apply set_same.
  assert (Hkind : forall r, kind (st' r) = kind (st r)).
  { intros r. unfold st', set. now destruct (r =? g)%nat eqn:E;
      [apply Nat.eqb_eq in E; subst|]. }
  unfold hits in *. unfold is_robot_pair in *. rewrite Hkind.
  destruct (Kind_eqb (kind (st a)) Robot && negb (g =? a)%nat) eqn:Hp.
  - apply andb_true_iff in Hp as [_ Hne]. apply negb_true_iff, Nat.eqb_neq in Hne.
    assert (Ha : st' a = st a) by (apply set_other; congruence).
    rewrite Ha, Hg. apply Rltb_true_iff. apply Rltb_true_iff in Hhit.
    unfold with_radius. cbn [pose radius]. lra.
  - destruct (Kind_eqb (kind (st a)) Wall); [|discriminate].
    apply (wall_check_grow (st g) (st' g) (st a) (st' a) a); auto.
    + now rewrite Hg.
    + now rewrite Hg.
    + unfold st', set. now destruct (a =? g)%nat eqn:E;
        [apply Nat.eqb_eq in E; subst|].
    + unfold st', set. now destruct (a =? g)%nat eqn:E;
        [apply Nat.eqb_eq in E; subst|].
Qed.

Lemma larger_radius_keeps_collision_witness :
  radius (duel_15 1%nat) <= 7
  /\ collision_check duel_15 [0%nat; 1%nat] 1%nat = true
  /\ collision_check (set duel_15 1%nat (with_radius (duel_15 1%nat) 7))
                     [0%nat; 1%nat] 1%nat = true.
Proof.
  assert (H1 : radius (duel_15 1%nat) <= 7) by (simpl; lra).
  pose proof (larger_radius_keeps_collision duel_15 [0%nat; 1%nat] 1%nat 7 H1
                duel_15_collides) as H.
  split; [exact H1|]. split; [exact duel_15_collides | exact H].
Defined.

Lemma point_edge_misses (game_obj : GameObject) (point : Point2D.t) :
  edge_hit game_obj (LineSegment2D.mk point point) = false.
Proof.
  unfold edge_hit.
  assert (Hnone : Line2D.find_intersection
                    (LineSegment2D.find_perpendicular (LineSegment2D.mk point point)
                                                      (center game_obj))
                    (LineSegment2D.line (LineSegment2D.mk point point)) = None).
  { apply find_intersection_none. now apply perpendicular_parallel_iff. }
  now rewrite Hnone.
Qed.

(** X18. Walls without a proper edge: a wall with no vertex is never
    hit, and no predicate is evaluated against it; a wall with a single
    vertex is hit at once when its corner is strictly closer than the
    radius, and otherwise has its one edge built by the wrap-around
    index from that corner to itself, so that the edge test is
    evaluated once, on a segment of length zero, and its result is the
    result for the wall. *)
Theorem walls_without_edges (game_obj another_obj : GameObject) (a : ref) :
  (vertex another_obj = [] ->
   wall_check game_obj another_obj a false = (false, []))
  /\ (forall v, vertex another_obj = [v] ->
        let corner := to_point (world_vertex another_obj v) in
        if corner_hit game_obj (world_vertex another_obj v)
        then wall_check game_obj another_obj a false = (true, [ProbeVertex a 0])
        else
          edges_loop [world_vertex another_obj v] (seq 0 1) false []
          = [LineSegment2D.mk corner corner]
          /\ snd (wall_check game_obj another_obj a false)
             = [ProbeVertex a 0; ProbeEdge a 0]
          /\ fst (wall_check game_obj another_obj a false)
             = edge_hit game_obj (LineSegment2D.mk corner corner)).
Proof.
  split.
  - intros Hv. unfold wall_check. now rewrite Hv.
  - intros v Hv corner. unfold wall_check. rewrite Hv. cbn [vertex_loop].
    destruct (corner_hit game_obj (world_vertex another_obj v)); [reflexivity|].
    cbn [app length seq edges_loop edge_loop].
    change (edge_at [world_vertex another_obj v] 0)
      with (LineSegment2D.mk corner corner).
    split; [reflexivity|].
    destruct (edge_hit game_obj (LineSegment2D.mk corner corner)); split; reflexivity.
Qed.

(** * A robot registered twice *)






(** The order of evaluation is not that of the reversed registration:
    the probes of the corner arena are in the order of [0; 1; 2] and not
    in the order of [2; 1; 0]. *)
Lemma corner_arena_order :
  in_registration_order corner_arena [0%nat; 1%nat; 2%nat]
                        (probes corner_arena [0%nat; 1%nat; 2%nat] 0%nat)
  /\ ~ in_registration_order corner_arena [2%nat; 1%nat; 0%nat]
                             (probes corner_arena [0%nat; 1%nat; 2%nat] 0%nat).
Proof.
  split; [apply scan_in_registration_order|].
  unfold probes. rewrite corner_arena_scan. cbn [snd]. intros Horder.
  pose proof (in_registration_order_count _ _ _ Horder) as Hcount.
  inversion Horder as [|a rest la l Hown Hrest Ha Hl]; subst.
  assert (Hla : la = []).
  { destruct Hown as [-> | [k [m [_ [_ ->]]]]]; [discriminate|].
    destruct k as [|k]; [|discriminate].
    destruct m as [|m]; [reflexivity | discriminate]. }
  subst la. simpl in Hl. subst l.
  inversion Hrest as [|a' rest' la' l' Hown' Hrest' Ha' Hl']; subst.
  pose proof (in_registration_order_count _ _ _ Hrest' (ProbeRobot 2%nat)) as H2.
  pose proof (in_registration_order_count _ _ _ Hrest' (ProbeVertex 1%nat 0%nat)) as H1.
  simpl in H1, H2.
  assert (Hsum : (count_occ Probe_eq_dec (la' ++ l') (ProbeRobot 2%nat) = 1)%nat)
    by (rewrite Hl'; reflexivity).
  rewrite count_occ_app in Hsum.
  pose proof (own_probes_count corner_arena 1%nat la' (ProbeRobot 2%nat) Hown') as Hc.
  simpl in Hc. lia.
Qed.
